(** * ZettlrBody: recent documents, quicklook and notification registries

    A shallow embedding of the stateful parts of
    [source/renderer/zettlr-body.js]: the bounded list of recent documents
    ([addRecentDocument]), the self-splicing collections of quicklook
    windows and notifications ([qlsplice], [closeQuicklook],
    [notifySplice]) and the rename prompt ([requestNewFileName]).

    JavaScript arrays are lists, object references are natural numbers,
    the fields of the class are a record that every method threads
    through, [while] loops take fuel and return [None] when it runs out,
    and calls to collaborators outside the class (a notification's
    [moveUp], the message channel's [send]) are recorded in a trace.

    Further down: [quicklook] and [notify], the prompts for new files and
    directories, [setTarget], [darkTheme] and the heading levels of the
    formatting popup. *)

From stdpp Require Import base decidable option list numbers strings.
From Stdlib Require Import ZArith Lia.

Local Open Scope Z_scope.

(** ** The Array methods the class uses *)

Module JSArray.
Section methods.
Context {A : Type}.

(** [arr.find(p)]: the first element that satisfies [p], or undefined. *)
Definition find (P : A → Prop) `{!∀ x, Decision (P x)} (arr : list A)
  : option A :=
  snd <$> list_find P arr.

(** [arr.indexOf(x)]: the first index holding [x], or -1. *)
Definition indexOf `{!EqDecision A} (x : A) (arr : list A) : Z :=
  match list_find (λ y, y = x) arr with
  | Some (i, _) => Z.of_nat i
  | None => -1
  end.

(** [arr.splice(start, 1)]: a negative [start] counts from the end, a
    [start] beyond the end removes nothing. *)
Definition splice1 (start : Z) (arr : list A) : list A :=
  let len := Z.of_nat (length arr) in
  let from := if start <? 0 then Z.max (len + start) 0 else Z.min start len in
  delete (Z.to_nat from) arr.

(** [arr.shift()]: drops the first element; nothing happens on []. *)
Definition shift (arr : list A) : list A := tail arr.

(** [arr.push(x)] *)
Definition push (arr : list A) (x : A) : list A := arr ++ [x].

(** [arr.length] *)
Definition len (arr : list A) : Z := Z.of_nat (length arr).
End methods.
End JSArray.

(** ** Data *)

(** A file as the renderer hands it over; only [hash] and [name] are read. *)
Record ZettlrFile := { fhash : Z; fname : string }.

(** An entry of [_recentDocs]: the object literal of line 302. *)
Record RecentDoc := { hash : Z; name : string }.

Global Instance RecentDoc_eq_dec : EqDecision RecentDoc.
Proof. solve_decision. Defined.

(** A quicklook window or a notification, known by its object reference. *)
Definition Handle := nat.

(** The fields of the class that its methods read and write. *)
Record ZettlrBody := {
  _ql : list Handle;
  _n : list Handle;
  _recentDocs : list RecentDoc;
  _numRecentDocs : Z
}.

Definition set_ql (ql : list Handle) (this : ZettlrBody) : ZettlrBody :=
  {| _ql := ql; _n := _n this; _recentDocs := _recentDocs this;
     _numRecentDocs := _numRecentDocs this |}.

Definition set_n (n : list Handle) (this : ZettlrBody) : ZettlrBody :=
  {| _ql := _ql this; _n := n; _recentDocs := _recentDocs this;
     _numRecentDocs := _numRecentDocs this |}.

Definition set_recentDocs (docs : list RecentDoc) (this : ZettlrBody)
  : ZettlrBody :=
  {| _ql := _ql this; _n := _n this; _recentDocs := docs;
     _numRecentDocs := _numRecentDocs this |}.

Definition set_numRecentDocs (cap : Z) (this : ZettlrBody) : ZettlrBody :=
  {| _ql := _ql this; _n := _n this; _recentDocs := _recentDocs this;
     _numRecentDocs := cap |}.

(** The state the constructor leaves (lines 55-58). *)
Definition constructor : ZettlrBody :=
  {| _ql := []; _n := []; _recentDocs := []; _numRecentDocs := 10 |}.

(** ** Recent documents *)

(** The loop of lines 298-300:
    [while (this._recentDocs.length > this._numRecentDocs - 1) shift()]. *)
Fixpoint shift_loop (fuel : nat) (this : ZettlrBody) : option ZettlrBody :=
  match fuel with
  | O => None
  | S fuel' =>
      if JSArray.len (_recentDocs this) >? _numRecentDocs this - 1
      then shift_loop fuel'
             (set_recentDocs (JSArray.shift (_recentDocs this)) this)
      else Some this
  end.

(** How many entries that loop has to drop: the length minus
    [_numRecentDocs - 1], or nothing. *)
Definition excess (this : ZettlrBody) : nat :=
  Z.to_nat (JSArray.len (_recentDocs this) - (_numRecentDocs this - 1)).

Definition entry_of (file : ZettlrFile) : RecentDoc :=
  {| hash := fhash file; name := fname file |}.

(** [addRecentDocument (file)], lines 290-303. [indexOf (found)] compares
    object references in the source and entries as values here; both stop
    at the position where [find] stopped (lemma [indexOf_found]), since an
    entry equal to [found] has its hash. *)
Definition addRecentDocument (fuel : nat) (file : ZettlrFile)
    (this : ZettlrBody) : option ZettlrBody :=
  match JSArray.find (λ elem, hash elem = fhash file) (_recentDocs this) with
  | Some found =>
      let docs := _recentDocs this in
      let docs := JSArray.splice1 (JSArray.indexOf found docs) docs in
      Some (set_recentDocs (JSArray.push docs found) this)
  | None =>
      this' ← shift_loop fuel this;
      Some (set_recentDocs
              (JSArray.push (_recentDocs this') (entry_of file)) this')
  end.

(** A sequence of calls, one per file, in order. *)
Fixpoint addRecentDocuments (fuel : nat) (files : list ZettlrFile)
    (this : ZettlrBody) : option ZettlrBody :=
  match files with
  | [] => Some this
  | file :: files' =>
      this' ← addRecentDocument fuel file this;
      addRecentDocuments fuel files' this'
  end.

(** ** Quicklook windows *)

(** [qlsplice (zql)], lines 321-329. *)
Definition qlsplice (zql : Handle) (this : ZettlrBody) : bool * ZettlrBody :=
  let index := JSArray.indexOf zql (_ql this) in
  if index >? -1
  then (true, set_ql (JSArray.splice1 index (_ql this)) this)
  else (false, this).

Section closeQuicklook.
(** What [close()] of a quicklook window does to the body; the class
    ZettlrQuicklook lives in another file. *)
Variable close : Handle → ZettlrBody → ZettlrBody.

(** [closeQuicklook ()], lines 335-342. [this._ql[0]] is undefined on an
    empty array, and calling [close] on it would throw; the loop
    condition excludes that, the model answers [None] there. *)
Fixpoint closeQuicklook (fuel : nat) (this : ZettlrBody)
    : option ZettlrBody :=
  match fuel with
  | O => None
  | S fuel' =>
      if JSArray.len (_ql this) >? 0
      then match _ql this !! 0%nat with
           | Some first => closeQuicklook fuel' (close first this)
           | None => None
           end
      else Some this
  end.
End closeQuicklook.

(** Modelled from the spec: [close()] of a quicklook window, whose class
    is in zettlr-quicklook.js; its teardown path calls back into the body
    to splice the window out of [_ql]. *)
Definition ZettlrQuicklook_close (zql : Handle) (this : ZettlrBody)
  : ZettlrBody :=
  (qlsplice zql this).2.

(** ** Notifications *)

(** A call the body makes on a notification. *)
Inductive Signal := MoveUp (msg : Handle).

Global Instance Signal_eq_dec : EqDecision Signal.
Proof. solve_decision. Defined.

(** [notifySplice (ntf)], lines 360-364. The second component is the
    trace of the loop [for (let msg of this._n) msg.moveUp()]. *)
Definition notifySplice (ntf : Handle) (this : ZettlrBody)
  : ZettlrBody * list Signal :=
  let index := JSArray.indexOf ntf (_n this) in
  let this' := if index >? -1
               then set_n (JSArray.splice1 index (_n this)) this
               else this in
  (this', MoveUp <$> _n this').

(** How many [moveUp()] calls a notification received. *)
Definition moveUp_count (h : Handle) (trace : list Signal) : nat :=
  length (filter (λ s, s = MoveUp h) trace).

(** [notify (message)], line 350: the new notification is a fresh object,
    here the reference [ntf]. *)
Definition notify (ntf : Handle) (this : ZettlrBody) : ZettlrBody :=
  set_n (JSArray.push (_n this) ntf) this.

(** ** The rename prompt *)

(** One field of a submitted form, as the popup passes it on. *)
Record FormField := { field_name : string; value : string }.

(** The payload of line 214. *)
Record Payload := { payload_name : string; payload_hash : Z }.

(** [global.ipc.send (channel, payload)] *)
Record IpcMessage := { channel : string; payload : Payload }.

(** A callback returns normally with the messages it sent, or throws. *)
Inductive Completion (A : Type) :=
  | Normal (a : A)
  | Throw.
Arguments Normal {A} a.
Arguments Throw {A}.

(** The element the popup is anchored to (lines 196-205). *)
Inductive Anchor :=
  | ButtonFileRename
  | PreviewItem (h : Z)
  | DirectoriesItem (h : Z).

(** The context given to the textfield template (lines 207-210); the
    placeholder is kept as its translation key. *)
Record Textfield := { val : string; placeholder : string }.

(** What [popup (elem, cnt, callback)] is called with. The popup calls
    [callback] with the submitted form, or with undefined ([None]) when
    the user dismisses it. *)
Record PopupCall := {
  elem : Anchor;
  cnt : Textfield;
  callback : option (list FormField) → Completion (list IpcMessage)
}.

(** [requestNewFileName (file)], lines 195-217. [currentFile] is what
    [this._renderer.getCurrentFile()] answers and [inPreview] tells whether
    the preview list has an item for the file. *)
Definition requestNewFileName (currentFile : option ZettlrFile)
    (inPreview : bool) (file : ZettlrFile) : PopupCall :=
  {| elem :=
       match currentFile with
       | Some cur =>
           if bool_decide (fhash cur = fhash file) then ButtonFileRename
           else if inPreview then PreviewItem (fhash file)
           else DirectoriesItem (fhash file)
       | None =>
           if inPreview then PreviewItem (fhash file)
           else DirectoriesItem (fhash file)
       end;
     cnt := {| val := fname file;
               placeholder := "dialog.file_rename.placeholder" |};
     callback := λ form,
       match form with
       | Some fields =>
           match fields !! 0%nat with
           | Some first =>
               Normal [ {| channel := "file-rename";
                           payload := {| payload_name := value first;
                                         payload_hash := fhash file |} |} ]
           | None => Throw
           end
       | None => Normal []
       end |}.

(** ** Opening a quicklook window *)

(** [quicklook (file)], line 312: the new window is a fresh object, here
    the reference [zql]. *)
Definition quicklook (zql : Handle) (this : ZettlrBody) : ZettlrBody :=
  set_ql (JSArray.push (_ql this) zql) this.

Section closeQuicklook_calls.
Variable close : Handle → ZettlrBody → ZettlrBody.

(** The loop of [closeQuicklook] again, lines 336-339, now also listing
    the windows whose [close()] it called, in call order. *)
Fixpoint closeQuicklook_calls (fuel : nat) (this : ZettlrBody)
    : option (list Handle * ZettlrBody) :=
  match fuel with
  | O => None
  | S fuel' =>
      if JSArray.len (_ql this) >? 0
      then match _ql this !! 0%nat with
           | Some first =>
               '(calls, this') ← closeQuicklook_calls fuel' (close first this);
               Some (first :: calls, this')
           | None => None
           end
      else Some ([], this)
  end.
End closeQuicklook_calls.

(** ** The order of last use *)

(** A reference for the recent documents: the hashes of all files
    recorded so far, each once, least recently recorded first. *)
Definition recency_touch (h : Z) (order : list Z) : list Z :=
  filter (λ x, x ≠ h) order ++ [h].

Definition recency_order (files : list ZettlrFile) : list Z :=
  foldl (λ order file, recency_touch (fhash file) order) [] files.

(** The last [n] elements of a list. *)
Definition last_n {A} (n : nat) (l : list A) : list A :=
  drop (length l - n) l.

(** ** The prompts for new files and directories *)

(** A directory as the renderer hands it over; [dtype] is its [type]. *)
Record ZettlrDir := { dhash : Z; dname : string; dtype : string }.

(** The elements these prompts are anchored to: [.button.file-new],
    [.button.directory-new], [[data-hash=...]] and the [li] of the
    directory in [#directories]. *)
Inductive Element :=
  | ButtonFileNew
  | ButtonDirectoryNew
  | DataHash (h : Z)
  | DirectoriesLi (h : Z).

(** What [popup (elem, cnt, callback)] is called with by these prompts. *)
Record Popup := {
  popup_elem : Element;
  popup_cnt : Textfield;
  popup_callback : option (list FormField) → Completion (list IpcMessage)
}.

(** The callback of lines 118-122, 142-146, 164-168 and 183-187, the same
    but for the channel:
    [if (form) global.ipc.send (channel, { name: form[0].value, hash })]. *)
Definition send_name_hash (chan : string) (h : Z)
    (form : option (list FormField)) : Completion (list IpcMessage) :=
  match form with
  | Some fields =>
      match fields !! 0%nat with
      | Some first =>
          Normal [ {| channel := chan;
                      payload := {| payload_name := value first;
                                    payload_hash := h |} |} ]
      | None => Throw
      end
  | None => Normal []
  end.

Section prompts.
(** [trans (key)] of the translation module. *)
Variable trans : string → string.

(** [requestFileName (dir)], lines 106-123; [None] for [dir] is a missing
    directory, [None] as result is a return before any popup. *)
Definition requestFileName (dir : option ZettlrDir) : option Popup :=
  match dir with
  | None => None
  | Some dir =>
      if bool_decide (dtype dir ≠ "directory") then None
      else Some {| popup_elem := ButtonFileNew;
                   popup_cnt :=
                     {| val := trans "dialog.file_new.value";
                        placeholder := trans "dialog.file_new.placeholder" |};
                   popup_callback := send_name_hash "file-new" (dhash dir) |}
  end.

(** [requestDirName (dir)], lines 130-147. *)
Definition requestDirName (dir : option ZettlrDir) : option Popup :=
  match dir with
  | None => None
  | Some dir =>
      if bool_decide (dtype dir ≠ "directory") then None
      else Some {| popup_elem := ButtonDirectoryNew;
                   popup_cnt :=
                     {| val := trans "dialog.dir_new.value";
                        placeholder := trans "dialog.dir_new.placeholder" |};
                   popup_callback := send_name_hash "dir-new" (dhash dir) |}
  end.

(** [requestVirtualDirName (dir)], lines 154-169. *)
Definition requestVirtualDirName (dir : option ZettlrDir) : option Popup :=
  match dir with
  | None => None
  | Some dir =>
      Some {| popup_elem := DataHash (dhash dir);
              popup_cnt :=
                {| val := trans "dialog.dir_new.value";
                   placeholder := trans "dialog.dir_new.placeholder" |};
              popup_callback := send_name_hash "dir-new-vd" (dhash dir) |}
  end.

(** [requestNewDirName (dir)], lines 176-188. There is no test of [dir]:
    reading [dir.hash] of a missing directory throws. *)
Definition requestNewDirName (dir : option ZettlrDir) : Completion Popup :=
  match dir with
  | None => Throw
  | Some dir =>
      Normal {| popup_elem := DirectoriesLi (dhash dir);
                popup_cnt :=
                  {| val := dname dir;
                     placeholder := trans "dialog.dir_rename.placeholder" |};
                popup_callback := send_name_hash "dir-rename" (dhash dir) |}
  end.
End prompts.

(** ** The writing target *)

(** The [target] of a file: a mode and a count. *)
Record Target := { target_mode : string; target_count : Z }.

(** What [findObject (hash)] answers: an object that has an own property
    [target] or has none. *)
Record TargetObject := { target : option Target }.

(** The context given to the target template (lines 236-239). *)
Record TargetTemplate := { mode : string; count : Z }.

(** A non-empty string and a number other than 0 are truthy. *)
Definition truthy_string (s : string) : bool := bool_decide (s ≠ "").
Definition truthy_number (z : Z) : bool := bool_decide (z ≠ 0).

Section setTarget.
(** [this._renderer.findObject], and [parseInt] with the conversion to a
    string it applies to a number; [Number] is what [parseInt] answers. *)
Variable findObject : Z → option TargetObject.
Variable Number : Type.
Variable parseInt : string → Number.
Variable ToString : Z → string.

(** The payload of lines 243-247. *)
Record TargetPayload := {
  set_hash : Number;
  set_mode : string;
  set_count : Number
}.

Record TargetMessage := { target_channel : string; target_payload : TargetPayload }.

Record TargetPopup := {
  target_elem : Element;
  target_cnt : TargetTemplate;
  target_callback : option (list FormField) → Completion (list TargetMessage)
}.

(** [setTarget (hash)], lines 223-250. The object literal of the message
    reads [form[1]] before [form[0]]. *)
Definition setTarget (hash : Z) : option TargetPopup :=
  match findObject hash with
  | None => None
  | Some file =>
      let shown :=
        match target file with
        | Some t =>
            if truthy_string (target_mode t) && truthy_number (target_count t)
            then {| mode := target_mode t; count := target_count t |}
            else {| mode := "words"; count := 0 |}
        | None => {| mode := "words"; count := 0 |}
        end in
      Some {| target_elem := DataHash hash;
              target_cnt := shown;
              target_callback := λ form,
                match form with
                | Some fields =>
                    match fields !! 1%nat with
                    | Some second =>
                        match fields !! 0%nat with
                        | Some first =>
                            Normal [ {| target_channel := "set-target";
                                        target_payload :=
                                          {| set_hash := parseInt (ToString hash);
                                             set_mode := value second;
                                             set_count := parseInt (value first) |} |} ]
                        | None => Throw
                        end
                    | None => Throw
                    end
                | None => Normal []
                end |}
  end.
End setTarget.

(** ** The dark theme *)

(** The class methods of jQuery on the list of classes of an element. *)
Module JQuery.
Definition hasClass (c : string) (classes : list string) : bool :=
  bool_decide (c ∈ classes).

Definition addClass (c : string) (classes : list string) : list string :=
  if hasClass c classes then classes else classes ++ [c].

Definition removeClass (c : string) (classes : list string) : list string :=
  filter (λ x, x ≠ c) classes.
End JQuery.

(** [darkTheme (val)], lines 382-386, on the classes of [body]; [val] is
    the truthiness of the argument. *)
Definition darkTheme (val : bool) (body : list string) : list string :=
  if val && negb (JQuery.hasClass "dark" body)
  then JQuery.addClass "dark" body
  else if negb val then JQuery.removeClass "dark" body
  else body.

(** ** The heading levels of the formatting popup *)

(** A call on the elements picked by a selector. *)
Inductive DomCall :=
  | RemoveClass (selector cls : string)
  | AddClass (selector cls : string)
  | SetProp (selector prop v : string).

(** A [switch] none of whose cases ends in [break]: control enters at the
    first case equal to [x] and runs the bodies from there to the end. *)
Fixpoint switch_fall_through {A} (x : string) (cases : list (string * A))
    : list A :=
  match cases with
  | [] => []
  | (label, body) :: rest =>
      if bool_decide (x = label) then body :: (snd <$> rest)
      else switch_fall_through x rest
  end.

(** The cases of lines 597-613. *)
Definition heading_cases : list (string * DomCall) :=
  [ ("markdownHeading6", AddClass ".formatting .markdownHeading6" "active");
    ("markdownHeading5", AddClass ".formatting .markdownHeading5" "active");
    ("markdownHeading4", AddClass ".formatting .markdownHeading4" "active");
    ("markdownHeading3", AddClass ".formatting .markdownHeading3" "active");
    ("markdownHeading2", AddClass ".formatting .markdownHeading2" "active");
    ("markdownHeading1", AddClass ".formatting .markdownHeading1" "active") ].

(** The [mousemove] handler of lines 588-616; [is_span] is
    [elem.is ('span')] and [className] is [e.target.className]. *)
Definition header_formatting_mousemove (is_span : bool) (className : string)
    : list DomCall :=
  RemoveClass ".formatting span" "active" ::
  if negb is_span
  then [ SetProp ".formatting #header-formatting" "class" "markdownHeading1" ]
  else switch_fall_through className heading_cases
       ++ [ SetProp ".formatting #header-formatting" "class" className ].

(** The class name of the heading of a level, for levels up to 9. *)
Definition markdownHeading (level : nat) : string :=
  "markdownHeading" +:+ String (Ascii.ascii_of_nat (48 + level)) "".


(** ** Sample data *)

Definition sample_file (h : Z) : ZettlrFile := {| fhash := h; fname := "doc" |}.

Definition sample_files : list ZettlrFile :=
  sample_file <$> [1; 2; 3; 4; 5; 6; 7; 8; 9; 10; 11].

(** The constructor's state with room for three recent documents. *)
Definition capacity_3 : ZettlrBody := set_numRecentDocs 3 constructor.

(** A body with three quicklook windows, three notifications and three
    recent documents. *)
Definition sample_body : ZettlrBody :=
  {| _ql := [5; 3; 7]%nat; _n := [2; 3; 8]%nat;
     _recentDocs := entry_of <$> [sample_file 1; sample_file 2; sample_file 3];
     _numRecentDocs := 10 |}.

(** A directory, a translation that answers the key, and a renderer that
    knows one file, whose target is 0 characters. *)
Definition sample_dir : ZettlrDir :=
  {| dhash := 7; dname := "notes"; dtype := "directory" |}.

Definition sample_trans (key : string) : string := key.

Definition sample_findObject (h : Z) : option TargetObject :=
  if bool_decide (h = 42)
  then Some {| target := Some {| target_mode := "chars"; target_count := 0 |} |}
  else None.

(** A stand-in for [parseInt] that answers the length of the string. *)
Definition sample_parseInt (s : string) : nat := String.length s.

Definition sample_ToString (z : Z) : string := "42".

(** A [close()] that leaves [_ql] alone. *)
Definition sample_close_later (zql : Handle) (this : ZettlrBody)
  : ZettlrBody := this.


(** * Properties *)

(** Closed decidable facts are settled by evaluation. *)
Ltac by_decide := apply (bool_decide_unpack _); vm_compute; exact I.

(** ** Array methods *)

Section JSArray_facts.
Context {A : Type}.
Implicit Types (arr l : list A) (x : A).

Lemma find_split (P : A → Prop) `{!∀ x, Decision (P x)} arr x :
  JSArray.find P arr = Some x →
  ∃ l1 l2, arr = l1 ++ x :: l2 ∧ P x ∧ Forall (λ y, ¬ P y) l1
           ∧ list_find P arr = Some (length l1, x).
Proof.
  unfold JSArray.find. destruct (list_find P arr) as [[i y]|] eqn:E; [|done].
  simpl. intros [= ->]. pose proof E as (Hi & HP & Hmin)%list_find_Some.
  exists (take i arr), (drop (S i) arr).
  assert (i < length arr)%nat as Hlt by (by eapply lookup_lt_Some).
  split_and!.
  - by rewrite take_drop_middle.
  - done.
  - apply Forall_lookup. intros j y Hj.
    apply lookup_take_Some in Hj as [? ?]. by eapply Hmin.
  - rewrite length_take, Nat.min_l by lia. done.
Qed.

Lemma find_None (P : A → Prop) `{!∀ x, Decision (P x)} arr :
  JSArray.find P arr = None ↔ Forall (λ y, ¬ P y) arr.
Proof.
  unfold JSArray.find. destruct (list_find P arr) as [[i y]|] eqn:E; simpl.
  - split; [done|]. intros HF.
    pose proof (proj2 (list_find_None P arr) HF). congruence.
  - split; [|done]. intros _. exact (proj1 (list_find_None P arr) E).
Qed.

Lemma find_is_Some (P : A → Prop) `{!∀ x, Decision (P x)} arr x :
  x ∈ arr → P x → is_Some (JSArray.find P arr).
Proof.
  intros Hin HP. destruct (JSArray.find P arr) eqn:E; [by eexists|].
  apply find_None in E. rewrite Forall_forall in E. naive_solver.
Qed.

Context `{!EqDecision A}.

Lemma indexOf_first l1 l2 x :
  x ∉ l1 → JSArray.indexOf x (l1 ++ x :: l2) = Z.of_nat (length l1).
Proof.
  intros Hnin. unfold JSArray.indexOf.
  assert (list_find (λ y, y = x) (l1 ++ x :: l2) = Some (length l1, x)) as ->.
  { apply list_find_Some. split_and!.
    - by apply list_lookup_middle.
    - done.
    - intros j y Hj Hlt ->. apply Hnin.
      rewrite lookup_app_l in Hj by done. by eapply list_elem_of_lookup_2. }
  done.
Qed.

Lemma indexOf_absent arr x : x ∉ arr → JSArray.indexOf x arr = -1.
Proof.
  intros Hnin. unfold JSArray.indexOf.
  assert (list_find (λ y, y = x) arr = None) as ->; [|done].
  apply list_find_None, Forall_forall. by intros y Hy ->.
Qed.

Lemma indexOf_ge_0 arr x : x ∈ arr → JSArray.indexOf x arr > -1.
Proof.
  intros (l1 & l2 & -> & Hnin)%list_elem_of_split_l.
  rewrite indexOf_first by done. lia.
Qed.

Lemma splice1_middle l1 l2 x :
  JSArray.splice1 (Z.of_nat (length l1)) (l1 ++ x :: l2) = l1 ++ l2.
Proof.
  unfold JSArray.splice1.
  destruct (Z.ltb_spec (Z.of_nat (length l1)) 0) as [?|_]; [lia|].
  rewrite Z.min_l, Nat2Z.id by (rewrite length_app; simpl; lia).
  apply delete_middle.
Qed.

(** [find] by a predicate followed by [indexOf] of what it found lands on
    the same position: the element found is the first that satisfies the
    predicate, and every copy of it satisfies the predicate too. *)
Lemma indexOf_found (P : A → Prop) `{!∀ x, Decision (P x)} l1 l2 x :
  P x → Forall (λ y, ¬ P y) l1 →
  JSArray.indexOf x (l1 ++ x :: l2) = Z.of_nat (length l1).
Proof.
  intros HP Hl1. apply indexOf_first. intros Hin.
  rewrite Forall_forall in Hl1. by apply (Hl1 x).
Qed.
End JSArray_facts.

(** ** Recent documents: the eviction loop *)

Lemma set_recentDocs_id this : set_recentDocs (_recentDocs this) this = this.
Proof. by destruct this. Qed.

Lemma set_recentDocs_twice docs docs' this :
  set_recentDocs docs (set_recentDocs docs' this) = set_recentDocs docs this.
Proof. done. Qed.

Lemma shift_loop_spec fuel this :
  1 ≤ _numRecentDocs this → (excess this < fuel)%nat →
  shift_loop fuel this
  = Some (set_recentDocs (drop (excess this) (_recentDocs this)) this).
Proof.
  revert this. induction fuel as [|fuel IH]; intros this Hcap Hfuel; [lia|].
  unfold excess in *. simpl.
  destruct (Z.gtb_spec (JSArray.len (_recentDocs this)) (_numRecentDocs this - 1))
    as [Hgt|Hle].
  - destruct this as [ql n docs cap]; simpl in *.
    destruct docs as [|d docs]; unfold JSArray.len in *; simpl in *; [lia|].
    rewrite IH; simpl; [|done|unfold JSArray.len; lia].
    unfold set_recentDocs, JSArray.len; simpl. do 2 f_equal.
    replace (Z.to_nat (Z.of_nat (S (length docs)) - (cap - 1)))
      with (S (Z.to_nat (Z.of_nat (length docs) - (cap - 1)))) by lia.
    done.
  - replace (Z.to_nat _) with 0%nat by lia.
    by rewrite drop_0, set_recentDocs_id.
Qed.

(** With a capacity below 1 the condition of the loop holds for every
    list, the empty one included, and [shift] on [] changes nothing. *)
Lemma shift_loop_diverges fuel this :
  _numRecentDocs this ≤ 0 → shift_loop fuel this = None.
Proof.
  revert this. induction fuel as [|fuel IH]; intros this Hcap; [done|].
  simpl. destruct (Z.gtb_spec (JSArray.len (_recentDocs this))
                              (_numRecentDocs this - 1)) as [_|Hle].
  - by apply IH.
  - unfold JSArray.len in Hle. lia.
Qed.

Lemma shift_loop_more_fuel fuel fuel' this r :
  shift_loop fuel this = Some r → (fuel ≤ fuel')%nat →
  shift_loop fuel' this = Some r.
Proof.
  revert fuel' this. induction fuel as [|fuel IH]; intros fuel' this; [done|].
  intros Hrun Hle. destruct fuel' as [|fuel']; [lia|]. simpl in *.
  destruct (_ >? _); [|done]. apply IH; [done|lia].
Qed.

(** ** Recent documents: one call *)

Section addRecentDocument_facts.
Implicit Types (this : ZettlrBody) (file : ZettlrFile) (e : RecentDoc).

(** The branch of lines 292-296. *)
Lemma addRecentDocument_present fuel file this l1 e l2 :
  _recentDocs this = l1 ++ e :: l2 →
  hash e = fhash file →
  Forall (λ y, hash y ≠ fhash file) l1 →
  addRecentDocument fuel file this
  = Some (set_recentDocs (l1 ++ l2 ++ [e]) this).
Proof.
  intros Hdocs He Hl1. unfold addRecentDocument.
  assert (JSArray.find (λ elem, hash elem = fhash file) (_recentDocs this)
          = Some e) as ->.
  { unfold JSArray.find.
    assert (list_find (λ elem, hash elem = fhash file) (_recentDocs this)
            = Some (length l1, e)) as ->; [|done].
    apply list_find_Some. rewrite Hdocs. split_and!.
    - by apply list_lookup_middle.
    - done.
    - intros j y Hj Hlt. rewrite lookup_app_l in Hj by done.
      rewrite Forall_lookup in Hl1. by eapply Hl1. }
  simpl. rewrite Hdocs.
  rewrite (indexOf_found (λ elem, hash elem = fhash file)) by done.
  rewrite splice1_middle. unfold JSArray.push. by rewrite <- (assoc_L (++)).
Qed.

(** The branch of lines 298-302. *)
Lemma addRecentDocument_absent fuel file this :
  Forall (λ y, hash y ≠ fhash file) (_recentDocs this) →
  1 ≤ _numRecentDocs this → (excess this < fuel)%nat →
  addRecentDocument fuel file this
  = Some (set_recentDocs
            (drop (excess this) (_recentDocs this) ++ [entry_of file]) this).
Proof.
  intros Habs Hcap Hfuel. unfold addRecentDocument.
  rewrite (proj2 (find_None _ _) Habs).
  by rewrite shift_loop_spec.
Qed.

(** Which branch is taken is decided by the hashes stored. *)
Lemma present_or_absent file (docs : list RecentDoc) :
  (∃ l1 e l2, docs = l1 ++ e :: l2 ∧ hash e = fhash file
              ∧ Forall (λ y, hash y ≠ fhash file) l1)
  ∨ Forall (λ y, hash y ≠ fhash file) docs.
Proof.
  destruct (JSArray.find (λ elem, hash elem = fhash file) docs) as [e|] eqn:E.
  - left. apply find_split in E as (l1 & l2 & -> & He & Hl1 & _). eauto 6.
  - right. by apply find_None in E.
Qed.
End addRecentDocument_facts.

(** ** Recent documents: the invariant *)

Lemma move_last_Permutation {A} (l1 l2 : list A) (x : A) :
  l1 ++ x :: l2 ≡ₚ l1 ++ l2 ++ [x].
Proof. apply Permutation_app_head, Permutation_cons_append. Qed.

Lemma excess_le_1 this :
  JSArray.len (_recentDocs this) ≤ _numRecentDocs this → (excess this ≤ 1)%nat.
Proof. unfold excess. lia. Qed.

(** What one call preserves, whichever branch it takes. *)
Lemma addRecentDocument_invariant fuel file this :
  (2 ≤ fuel)%nat → 1 ≤ _numRecentDocs this →
  JSArray.len (_recentDocs this) ≤ _numRecentDocs this →
  NoDup (hash <$> _recentDocs this) →
  ∃ this', addRecentDocument fuel file this = Some this'
    ∧ _numRecentDocs this' = _numRecentDocs this
    ∧ JSArray.len (_recentDocs this') ≤ _numRecentDocs this'
    ∧ NoDup (hash <$> _recentDocs this').
Proof.
  intros Hfuel Hcap Hlen Hnd.
  destruct (present_or_absent file (_recentDocs this))
    as [(l1 & e & l2 & Hdocs & He & Hl1)|Habs].
  - eexists. split; [by eapply addRecentDocument_present|]. simpl.
    rewrite Hdocs in Hlen, Hnd. split_and!; [done|..].
    + unfold JSArray.len in *. rewrite !length_app in *. simpl in *.
      rewrite ?length_app. simpl. lia.
    + by rewrite <- move_last_Permutation.
  - pose proof (excess_le_1 this Hlen) as Hex.
    eexists. split; [apply addRecentDocument_absent; [done|done|lia]|]. simpl.
    split_and!; [done|..].
    + unfold JSArray.len in *. rewrite length_app, length_drop. simpl.
      unfold excess, JSArray.len in *. lia.
    + rewrite fmap_app, fmap_drop. apply NoDup_app. split_and!.
      * eapply sublist_NoDup; [done|apply sublist_drop].
      * intros h Hh ->%list_elem_of_singleton.
        apply (subseteq_drop (excess this)) in Hh.
        apply list_elem_of_fmap in Hh as (y & Hy & Hin).
        rewrite Forall_forall in Habs. by apply (Habs y).
      * apply NoDup_singleton.
Qed.

Lemma addRecentDocuments_invariant fuel files this :
  (2 ≤ fuel)%nat → 1 ≤ _numRecentDocs this →
  JSArray.len (_recentDocs this) ≤ _numRecentDocs this →
  NoDup (hash <$> _recentDocs this) →
  ∃ this', addRecentDocuments fuel files this = Some this'
    ∧ _numRecentDocs this' = _numRecentDocs this
    ∧ JSArray.len (_recentDocs this') ≤ _numRecentDocs this'
    ∧ NoDup (hash <$> _recentDocs this').
Proof.
  intros Hfuel. revert this.
  induction files as [|file files IH]; intros this Hcap Hlen Hnd; simpl.
  - by exists this.
  - destruct (addRecentDocument_invariant fuel file this)
      as (this1 & -> & Hcap1 & Hlen1 & Hnd1); [done..|]. simpl.
    destruct (IH this1) as (this2 & -> & Hcap2 & Hlen2 & Hnd2);
      [congruence|done|done|].
    exists this2. split_and!; [done|congruence|done|done].
Qed.

(** C1. Whatever files are recorded, in whatever order, starting from the
    state the constructor leaves (empty list, capacity 10), every call
    returns, the list then holds at most 10 entries, and no two of its
    entries have the same hash. *)
Theorem addRecentDocument_bounded_distinct (fuel : nat)
    (files : list ZettlrFile) :
  (2 ≤ fuel)%nat →
  ∃ this', addRecentDocuments fuel files constructor = Some this'
    ∧ (length (_recentDocs this') ≤ 10)%nat
    ∧ NoDup (hash <$> _recentDocs this').
Proof.
  intros Hfuel.
  destruct (addRecentDocuments_invariant fuel files constructor)
    as (this' & Hrun & Hcap & Hlen & Hnd); simpl; [done|lia|done|constructor|].
  exists this'. split_and!; [done| |done].
  unfold JSArray.len in Hlen. simpl in Hcap. lia.
Qed.

(** ** Recent documents: eviction order *)

Lemma addRecentDocuments_app fuel files1 files2 this :
  addRecentDocuments fuel (files1 ++ files2) this
  = this' ← addRecentDocuments fuel files1 this;
    addRecentDocuments fuel files2 this'.
Proof.
  revert this. induction files1 as [|file files1 IH]; intros this; simpl.
  - done.
  - destruct (addRecentDocument fuel file this) as [this1|]; simpl; [|done].
    apply IH.
Qed.

(** Recording files that are new to the list, and distinct from each
    other, keeps the last [capacity] entries of the list extended by
    them: eviction is from the front, one entry at a time. *)
Lemma addRecentDocuments_fresh fuel files this :
  (2 ≤ fuel)%nat → 1 ≤ _numRecentDocs this →
  JSArray.len (_recentDocs this) ≤ _numRecentDocs this →
  NoDup (fhash <$> files) →
  (∀ file, file ∈ files →
     Forall (λ y, hash y ≠ fhash file) (_recentDocs this)) →
  let all := _recentDocs this ++ (entry_of <$> files) in
  addRecentDocuments fuel files this
  = Some (set_recentDocs
            (drop (length all - Z.to_nat (_numRecentDocs this)) all) this).
Proof.
  intros Hfuel. revert this.
  induction files as [|file files IH]; intros this Hcap Hlen Hnd Hnew all;
    subst all; simpl.
  - rewrite app_nil_r. unfold JSArray.len in Hlen.
    replace (_ - _)%nat with 0%nat by lia.
    by rewrite drop_0, set_recentDocs_id.
  - rewrite fmap_cons in Hnd. apply NoDup_cons in Hnd as [Hfile Hnd].
    pose proof (excess_le_1 this Hlen) as Hex.
    rewrite addRecentDocument_absent; [|apply Hnew; left|done|lia]. simpl.
    rewrite IH; simpl; [|done|..|done|].
    + rewrite set_recentDocs_twice. do 2 f_equal.
      assert (excess this ≤ length (_recentDocs this))%nat as Hk
        by (unfold excess, JSArray.len in *; lia).
      rewrite <- (assoc_L (++)). cbn [app].
      rewrite <- (drop_app_le _ (entry_of file :: _)) by done.
      rewrite drop_drop. f_equal.
      rewrite length_drop, !length_app, !length_cons, !length_fmap.
      unfold excess, JSArray.len in *. lia.
    + unfold JSArray.len in *. rewrite length_app, length_drop. simpl.
      unfold excess, JSArray.len in *. lia.
    + intros file' Hin. apply Forall_app. split.
      * apply Forall_drop, Hnew. by right.
      * apply Forall_singleton. simpl. intros Heq. apply Hfile.
        rewrite Heq. by apply list_elem_of_fmap_2.
Qed.

Lemma NoDup_fmap_take_3 (A B C D : ZettlrFile) :
  NoDup (fhash <$> [A; B; C; D]) → NoDup (fhash <$> [A; B; C]).
Proof.
  intros Hnd. change [A; B; C] with (take 3 [A; B; C; D]).
  rewrite fmap_take. eapply sublist_NoDup; [done|apply sublist_take].
Qed.

(** C2. Eviction is from the least-recent end. With the constructor's
    capacity 10, recording eleven files with distinct hashes leaves the
    entries of the last ten, in order. With capacity 3 and files A, B, C, D
    with distinct hashes, recording A, B, C, A leaves [B, C, A], and
    recording D after that leaves [C, A, D]. *)
Theorem addRecentDocument_evicts_front (fuel : nat) (ds : list ZettlrFile)
    (A B C D : ZettlrFile) :
  (2 ≤ fuel)%nat →
  length ds = 11%nat → NoDup (fhash <$> ds) →
  NoDup (fhash <$> [A; B; C; D]) →
  addRecentDocuments fuel ds constructor
  = Some (set_recentDocs (entry_of <$> drop 1 ds) constructor)
  ∧ addRecentDocuments fuel [A; B; C; A] capacity_3
    = Some (set_recentDocs (entry_of <$> [B; C; A]) capacity_3)
  ∧ addRecentDocuments fuel [A; B; C; A; D] capacity_3
    = Some (set_recentDocs (entry_of <$> [C; A; D]) capacity_3).
Proof.
  intros Hfuel Hlen Hds Habcd.
  assert (addRecentDocuments fuel [A; B; C; A] capacity_3
          = Some (set_recentDocs (entry_of <$> [B; C; A]) capacity_3)) as HABCA.
  { change [A; B; C; A] with ([A; B; C] ++ [A]).
    rewrite addRecentDocuments_app.
    rewrite addRecentDocuments_fresh; simpl; [|done|lia|done| |done].
    - by rewrite (addRecentDocument_present fuel A _ [] (entry_of A)
                    [entry_of B; entry_of C]).
    - by apply (NoDup_fmap_take_3 A B C D). }
  split_and!.
  - rewrite addRecentDocuments_fresh; simpl; [|done|lia|done|done|done].
    rewrite length_fmap, Hlen, fmap_drop. done.
  - done.
  - change [A; B; C; A; D] with ([A; B; C; A] ++ [D]).
    rewrite addRecentDocuments_app, HABCA. simpl.
    rewrite addRecentDocument_absent; simpl; [done| |lia|vm_compute; lia].
    simpl in Habcd. apply NoDup_cons in Habcd as [HA Habcd].
    apply NoDup_cons in Habcd as [HB Habcd].
    apply NoDup_cons in Habcd as [HC _].
    apply not_elem_of_cons in HA as (_ & HA).
    apply not_elem_of_cons in HA as (_ & (HAD & _)%not_elem_of_cons).
    apply not_elem_of_cons in HB as (_ & (HBD & _)%not_elem_of_cons).
    apply not_elem_of_cons in HC as (HCD & _).
    rewrite !Forall_cons, Forall_nil. simpl. done.
Qed.

(** ** Recent documents: recording a document that is already listed *)

(** C3. When the hash of the file occurs in the list, the call returns
    (for any capacity, and without entering the eviction loop), the first
    entry with that hash becomes the last entry, the other entries keep
    their order, the length is the same and the entries are the same: the
    new list is a permutation of the old one. *)
Theorem addRecentDocument_present_moves_last (fuel : nat)
    (file : ZettlrFile) (this : ZettlrBody) :
  fhash file ∈ (hash <$> _recentDocs this) →
  ∃ l1 e l2,
    _recentDocs this = l1 ++ e :: l2
    ∧ hash e = fhash file
    ∧ Forall (λ y, hash y ≠ fhash file) l1
    ∧ addRecentDocument fuel file this
      = Some (set_recentDocs (l1 ++ l2 ++ [e]) this)
    ∧ last (l1 ++ l2 ++ [e]) = Some e
    ∧ length (l1 ++ l2 ++ [e]) = length (_recentDocs this)
    ∧ l1 ++ l2 ++ [e] ≡ₚ _recentDocs this.
Proof.
  intros (y & Hy & Hin)%list_elem_of_fmap.
  destruct (present_or_absent file (_recentDocs this))
    as [(l1 & e & l2 & Hdocs & He & Hl1)|Habs].
  - exists l1, e, l2. split_and!; [done|done|done|..].
    + by apply addRecentDocument_present.
    + by rewrite (assoc_L (++)), last_snoc.
    + rewrite Hdocs, !length_app. simpl. lia.
    + by rewrite Hdocs, <- move_last_Permutation.
  - rewrite Forall_forall in Habs. by destruct (Habs y).
Qed.

(** C9. When the list has an entry with the hash of the file, the entry
    that ends up last is the stored one, with the name it was stored with;
    all entries are the stored ones; the name the file carries plays no
    part in the result. *)
Theorem addRecentDocument_keeps_name (fuel : nat) (file : ZettlrFile)
    (this : ZettlrBody) (found : RecentDoc) :
  JSArray.find (λ elem, hash elem = fhash file) (_recentDocs this)
  = Some found →
  ∃ this',
    addRecentDocument fuel file this = Some this'
    ∧ last (_recentDocs this') = Some found
    ∧ _recentDocs this' ≡ₚ _recentDocs this
    ∧ ∀ other : string,
        addRecentDocument fuel {| fhash := fhash file; fname := other |} this
        = Some this'.
Proof.
  intros (l1 & l2 & Hdocs & He & Hl1 & _)%find_split.
  exists (set_recentDocs (l1 ++ l2 ++ [found]) this). split_and!.
  - by apply addRecentDocument_present.
  - simpl. by rewrite (assoc_L (++)), last_snoc.
  - simpl. by rewrite Hdocs, <- move_last_Permutation.
  - intros other. by apply addRecentDocument_present.
Qed.

(** ** Recent documents: termination *)

Lemma addRecentDocument_more_fuel fuel fuel' file this r :
  addRecentDocument fuel file this = Some r → (fuel ≤ fuel')%nat →
  addRecentDocument fuel' file this = Some r.
Proof.
  unfold addRecentDocument. intros Hrun Hle.
  destruct (JSArray.find _ _); [done|].
  destruct (shift_loop fuel this) as [this1|] eqn:E; [|done].
  by rewrite (shift_loop_more_fuel fuel fuel' this this1).
Qed.

(** With a capacity below 1, recording a file that is not in the list
    never returns. *)
Lemma addRecentDocument_diverges fuel file this :
  _numRecentDocs this ≤ 0 →
  Forall (λ y, hash y ≠ fhash file) (_recentDocs this) →
  addRecentDocument fuel file this = None.
Proof.
  intros Hcap Habs. unfold addRecentDocument.
  rewrite (proj2 (find_None _ _) Habs).
  by rewrite shift_loop_diverges.
Qed.

(** C5, as the code has it. For every capacity of at least 1 and every
    list the call returns: one round of the loop more than there are
    entries in excess suffices, more fuel gives the same state, and the
    list then holds at most as many entries as the larger of the capacity
    and its previous length. *)
Theorem addRecentDocument_total (file : ZettlrFile) (this : ZettlrBody) :
  1 ≤ _numRecentDocs this →
  ∃ this',
    addRecentDocument (S (excess this)) file this = Some this'
    ∧ (∀ fuel, (excess this < fuel)%nat →
         addRecentDocument fuel file this = Some this')
    ∧ JSArray.len (_recentDocs this')
      ≤ Z.max (_numRecentDocs this) (JSArray.len (_recentDocs this)).
Proof.
  intros Hcap.
  destruct (present_or_absent file (_recentDocs this))
    as [(l1 & e & l2 & Hdocs & He & Hl1)|Habs].
  - eexists. split_and!.
    + by eapply addRecentDocument_present.
    + intros fuel _. by eapply addRecentDocument_present.
    + simpl. rewrite Hdocs. unfold JSArray.len.
      rewrite !length_app. simpl. lia.
  - eexists. split_and!.
    + apply addRecentDocument_absent; [done|done|lia].
    + intros fuel Hfuel. by apply addRecentDocument_absent.
    + simpl. unfold JSArray.len. rewrite length_app, length_drop. simpl.
      unfold excess, JSArray.len. lia.
Qed.

(** C5, as the claim has it, fails at capacity 0: on the empty list the
    condition of the loop, [0 > 0 - 1], holds, [shift] leaves the list
    empty, and the condition holds again; no amount of fuel lets the call
    return. *)
Lemma addRecentDocument_capacity_0_never_returns :
  ¬ ∃ fuel this',
      addRecentDocument fuel {| fhash := 1; fname := "A" |}
        (set_numRecentDocs 0 constructor) = Some this'.
Proof.
  intros (fuel & this' & Hrun).
  rewrite addRecentDocument_diverges in Hrun; [done|done|constructor].
Qed.

(** ** Quicklook windows and notifications: removal *)

Lemma splice_present (h : Handle) (arr : list Handle) :
  h ∈ arr →
  ∃ l1 l2, arr = l1 ++ h :: l2 ∧ (h ∉ l1)
           ∧ JSArray.indexOf h arr = Z.of_nat (length l1)
           ∧ JSArray.splice1 (JSArray.indexOf h arr) arr = l1 ++ l2.
Proof.
  intros (l1 & l2 & -> & Hnin)%list_elem_of_split_l.
  exists l1, l2. rewrite indexOf_first by done.
  by rewrite splice1_middle.
Qed.

Lemma qlsplice_present zql this :
  zql ∈ _ql this →
  ∃ l1 l2, _ql this = l1 ++ zql :: l2 ∧ (zql ∉ l1)
           ∧ qlsplice zql this = (true, set_ql (l1 ++ l2) this).
Proof.
  intros (l1 & l2 & Hql & Hnin & Hidx & Hsplice)%splice_present.
  exists l1, l2. split_and!; [done..|]. unfold qlsplice.
  rewrite Hsplice, Hidx.
  by destruct (Z.gtb_spec (Z.of_nat (length l1)) (-1)); [|lia].
Qed.

Lemma qlsplice_absent zql this :
  zql ∉ _ql this → qlsplice zql this = (false, this).
Proof. intros Hnin. unfold qlsplice. by rewrite indexOf_absent. Qed.

Lemma notifySplice_present ntf this :
  ntf ∈ _n this →
  ∃ l1 l2, _n this = l1 ++ ntf :: l2 ∧ (ntf ∉ l1)
           ∧ notifySplice ntf this
             = (set_n (l1 ++ l2) this, MoveUp <$> (l1 ++ l2)).
Proof.
  intros (l1 & l2 & Hn & Hnin & Hidx & Hsplice)%splice_present.
  exists l1, l2. split_and!; [done..|]. unfold notifySplice.
  rewrite Hsplice, Hidx.
  by destruct (Z.gtb_spec (Z.of_nat (length l1)) (-1)); [|lia].
Qed.

Lemma notifySplice_absent ntf this :
  ntf ∉ _n this → notifySplice ntf this = (this, MoveUp <$> _n this).
Proof. intros Hnin. unfold notifySplice. by rewrite indexOf_absent. Qed.

(** C6. Removing a handle that is not in the collection changes nothing:
    [qlsplice] answers false and leaves the body as it was, [notifySplice]
    leaves the body as it was (both are total functions: nothing throws).
    [qlsplice] answers true exactly for the handles that are in the
    collection, and then the first occurrence of the handle is gone. *)
Theorem splice_absent_no_op (zql ntf : Handle) (this : ZettlrBody) :
  zql ∉ _ql this → ntf ∉ _n this →
  qlsplice zql this = (false, this)
  ∧ (notifySplice ntf this).1 = this
  ∧ ∀ h : Handle,
      ((qlsplice h this).1 = true ↔ h ∈ _ql this)
      ∧ (h ∈ _ql this →
           ∃ l1 l2, _ql this = l1 ++ h :: l2 ∧ (h ∉ l1)
                    ∧ qlsplice h this = (true, set_ql (l1 ++ l2) this)).
Proof.
  intros Hzql Hntf. split_and!.
  - by apply qlsplice_absent.
  - by rewrite notifySplice_absent.
  - intros h. split; [|apply qlsplice_present].
    destruct (decide (h ∈ _ql this)) as [Hin|Hnin].
    + destruct (qlsplice_present h this Hin) as (l1 & l2 & _ & _ & ->). done.
    + rewrite qlsplice_absent by done. simpl. split; [done|tauto].
Qed.

(** ** Notifications: who is told to move up *)

Lemma moveUp_count_absent (h : Handle) (l : list Handle) :
  h ∉ l → moveUp_count h (MoveUp <$> l) = 0%nat.
Proof.
  unfold moveUp_count. induction l as [|x l IH]; [done|].
  intros [Hne Hnin]%not_elem_of_cons. rewrite fmap_cons, filter_cons.
  destruct (decide (MoveUp x = MoveUp h)) as [[= ->]|_]; [done|]. by apply IH.
Qed.

Lemma moveUp_count_once (h : Handle) (l : list Handle) :
  NoDup l → h ∈ l → moveUp_count h (MoveUp <$> l) = 1%nat.
Proof.
  unfold moveUp_count. induction l as [|x l IH]; intros Hnd Hin.
  - by apply elem_of_nil in Hin.
  - apply NoDup_cons in Hnd as [Hx Hnd]. rewrite fmap_cons, filter_cons.
    destruct (decide (MoveUp x = MoveUp h)) as [[= ->]|Hne].
    + simpl. f_equal. by apply moveUp_count_absent.
    + apply elem_of_cons in Hin as [->|Hin]; [done|]. by apply IH.
Qed.

(** Notifications are objects made by [notify], one [push] each, so the
    collection never holds the same reference twice. *)
Lemma notify_NoDup ntf this :
  ntf ∉ _n this → NoDup (_n this) → NoDup (_n (notify ntf this)).
Proof.
  intros Hfresh Hnd. simpl. apply NoDup_app. split_and!; [done| |apply NoDup_singleton].
  by intros h Hh ->%list_elem_of_singleton.
Qed.

Lemma notifySplice_NoDup ntf this :
  NoDup (_n this) → NoDup (_n (notifySplice ntf this).1).
Proof.
  intros Hnd. destruct (decide (ntf ∈ _n this)) as [Hin|Hnin].
  - destruct (notifySplice_present ntf this Hin) as (l1 & l2 & Hn & _ & ->).
    simpl. rewrite Hn, <- Permutation_middle in Hnd.
    by apply NoDup_cons in Hnd as [_ Hnd].
  - by rewrite notifySplice_absent.
Qed.

(** C7. In a collection that holds each notification once, removing one
    that is in it takes exactly that one out, calls [moveUp] exactly once
    on every notification that remains, and never on the one removed. *)
Theorem notifySplice_moves_up_the_rest (ntf : Handle) (this : ZettlrBody) :
  NoDup (_n this) → ntf ∈ _n this →
  ∃ l1 l2,
    _n this = l1 ++ ntf :: l2
    ∧ _n (notifySplice ntf this).1 = l1 ++ l2
    ∧ (ntf ∉ _n (notifySplice ntf this).1)
    ∧ (∀ h, h ∈ _n this → h ≠ ntf → h ∈ _n (notifySplice ntf this).1)
    ∧ (notifySplice ntf this).2 = MoveUp <$> _n (notifySplice ntf this).1
    ∧ (∀ h, h ∈ _n (notifySplice ntf this).1 →
         moveUp_count h (notifySplice ntf this).2 = 1%nat)
    ∧ moveUp_count ntf (notifySplice ntf this).2 = 0%nat.
Proof.
  intros Hnd Hin.
  destruct (notifySplice_present ntf this Hin) as (l1 & l2 & Hn & _ & ->).
  exists l1, l2. simpl. rewrite Hn in Hnd |- *.
  assert (NoDup (l1 ++ l2) ∧ ntf ∉ l1 ++ l2) as [Hnd' Hout].
  { rewrite <- Permutation_middle in Hnd.
    apply NoDup_cons in Hnd as [? ?]. done. }
  split_and!; [done|done|done| |done|..].
  - intros h Hh Hne. rewrite elem_of_app, elem_of_cons in Hh.
    rewrite elem_of_app. tauto.
  - intros h Hh. by apply moveUp_count_once.
  - by apply moveUp_count_absent.
Qed.

(** C10. Asking to remove a notification that is not in the collection
    leaves the collection as it is and still calls [moveUp] on each of its
    members, in order: once on every notification of a collection that
    holds each notification once. *)
Theorem notifySplice_absent_moves_up_all (ntf : Handle) (this : ZettlrBody) :
  NoDup (_n this) → ntf ∉ _n this →
  (notifySplice ntf this).1 = this
  ∧ (notifySplice ntf this).2 = MoveUp <$> _n this
  ∧ (∀ h, h ∈ _n this → moveUp_count h (notifySplice ntf this).2 = 1%nat)
  ∧ moveUp_count ntf (notifySplice ntf this).2 = 0%nat.
Proof.
  intros Hnd Hnin. rewrite notifySplice_absent by done. simpl.
  split_and!; [done|done|..].
  - intros h Hh. by apply moveUp_count_once.
  - by apply moveUp_count_absent.
Qed.

(** ** Quicklook windows: closing all of them *)

Section closeQuicklook_facts.
Variable close : Handle → ZettlrBody → ZettlrBody.

(** A quicklook window that is closed splices itself out of [_ql] before
    [close] returns. *)
Hypothesis close_splices :
  ∀ zql this, _ql (close zql this) = _ql (qlsplice zql this).2.

Lemma close_first zql ql this :
  _ql this = zql :: ql → _ql (close zql this) = ql.
Proof.
  intros Hql. rewrite close_splices.
  destruct (qlsplice_present zql this) as (l1 & l2 & Hsplit & Hnin & ->).
  { rewrite Hql. by left. }
  simpl. rewrite Hql in Hsplit. destruct l1 as [|x l1].
  - by injection Hsplit as <-.
  - injection Hsplit as <- _. exfalso. apply Hnin. by left.
Qed.

Lemma closeQuicklook_spec fuel this :
  (length (_ql this) < fuel)%nat →
  ∃ this', closeQuicklook close fuel this = Some this' ∧ _ql this' = [].
Proof.
  revert this. induction fuel as [|fuel IH]; intros this Hfuel; [lia|].
  simpl. destruct (_ql this) as [|zql ql] eqn:Hql; simpl.
  - exists this. by rewrite Hql.
  - destruct (Z.gtb_spec (JSArray.len (zql :: ql)) 0) as [_|Hle].
    + apply IH. rewrite (close_first zql ql) by done. simpl in Hfuel. lia.
    + unfold JSArray.len in Hle. simpl in Hle. lia.
Qed.

Lemma closeQuicklook_more_fuel fuel fuel' this r :
  closeQuicklook close fuel this = Some r → (fuel ≤ fuel')%nat →
  closeQuicklook close fuel' this = Some r.
Proof.
  revert fuel' this. induction fuel as [|fuel IH]; intros fuel' this; [done|].
  intros Hrun Hle. destruct fuel' as [|fuel']; [lia|]. simpl in *.
  destruct (_ >? _); [|done].
  destruct (_ql this !! 0%nat); [|done]. apply IH; [done|lia].
Qed.
End closeQuicklook_facts.

(** C4. Whenever [close()] of a quicklook window splices the window out
    of [_ql] the way [qlsplice] does, [closeQuicklook] returns for every
    collection: one round of the loop per window and the final test are
    enough, more rounds allowed change nothing, and [_ql] is empty when it
    returns. *)
Theorem closeQuicklook_terminates_empty
    (close : Handle → ZettlrBody → ZettlrBody) (this : ZettlrBody) :
  (∀ zql st, _ql (close zql st) = _ql (qlsplice zql st).2) →
  ∃ this',
    closeQuicklook close (S (length (_ql this))) this = Some this'
    ∧ _ql this' = []
    ∧ ∀ fuel, (length (_ql this) < fuel)%nat →
        closeQuicklook close fuel this = Some this'.
Proof.
  intros Hclose.
  destruct (closeQuicklook_spec close Hclose (S (length (_ql this))) this)
    as (this' & Hrun & Hempty); [lia|].
  exists this'. split_and!; [done..|].
  intros fuel Hfuel.
  apply (closeQuicklook_more_fuel close (S (length (_ql this)))); [done|lia].
Qed.

(** ** The rename prompt *)

(** C8. Whatever the file, the current file and the preview list: when
    the popup hands over a submitted form, the callback sends one message,
    on channel file-rename, with the value of the first field as name and
    the hash of the file, and nothing else; when the popup hands over
    undefined, the callback sends nothing. *)
Theorem requestNewFileName_sends_rename (currentFile : option ZettlrFile)
    (inPreview : bool) (file : ZettlrFile)
    (first : FormField) (rest : list FormField) :
  callback (requestNewFileName currentFile inPreview file)
    (Some (first :: rest))
  = Normal [ {| channel := "file-rename";
                payload := {| payload_name := value first;
                              payload_hash := fhash file |} |} ]
  ∧ callback (requestNewFileName currentFile inPreview file) None
    = Normal [].
Proof. done. Qed.

Example requestNewFileName_42_Notes :
  callback (requestNewFileName None true {| fhash := 42; fname := "Draft" |})
    (Some [ {| field_name := "name"; value := "Notes" |} ])
  = Normal [ {| channel := "file-rename";
                payload := {| payload_name := "Notes"; payload_hash := 42 |} |} ].
Proof. reflexivity. Qed.

(** * The theorems at concrete inputs *)

Lemma addRecentDocument_bounded_distinct_witness :
  (2 ≤ 2)%nat
  ∧ ∃ this', addRecentDocuments 2 (sample_files ++ [sample_file 3])
               constructor = Some this'
      ∧ (length (_recentDocs this') ≤ 10)%nat
      ∧ NoDup (hash <$> _recentDocs this').
Proof.
  split; [lia|].
  apply (addRecentDocument_bounded_distinct 2 (sample_files ++ [sample_file 3])).
  lia.
Defined.

Lemma addRecentDocument_evicts_front_witness :
  addRecentDocuments 2 sample_files constructor
  = Some (set_recentDocs (entry_of <$> drop 1 sample_files) constructor)
  ∧ addRecentDocuments 2
      [sample_file 1; sample_file 2; sample_file 3; sample_file 1] capacity_3
    = Some (set_recentDocs
              (entry_of <$> [sample_file 2; sample_file 3; sample_file 1])
              capacity_3)
  ∧ addRecentDocuments 2
      [sample_file 1; sample_file 2; sample_file 3; sample_file 1;
       sample_file 4] capacity_3
    = Some (set_recentDocs
              (entry_of <$> [sample_file 3; sample_file 1; sample_file 4])
              capacity_3).
Proof.
  apply (addRecentDocument_evicts_front 2 sample_files
           (sample_file 1) (sample_file 2) (sample_file 3) (sample_file 4)).
  - lia.
  - reflexivity.
  - by_decide.
  - by_decide.
Defined.

Lemma addRecentDocument_present_moves_last_witness :
  ∃ l1 e l2,
    _recentDocs sample_body = l1 ++ e :: l2
    ∧ hash e = fhash (sample_file 2)
    ∧ Forall (λ y, hash y ≠ fhash (sample_file 2)) l1
    ∧ addRecentDocument 0 (sample_file 2) sample_body
      = Some (set_recentDocs (l1 ++ l2 ++ [e]) sample_body)
    ∧ last (l1 ++ l2 ++ [e]) = Some e
    ∧ length (l1 ++ l2 ++ [e]) = length (_recentDocs sample_body)
    ∧ l1 ++ l2 ++ [e] ≡ₚ _recentDocs sample_body.
Proof.
  apply (addRecentDocument_present_moves_last 0 (sample_file 2) sample_body).
  by_decide.
Defined.

Lemma addRecentDocument_keeps_name_witness :
  ∃ this',
    addRecentDocument 0 {| fhash := 2; fname := "renamed" |} sample_body
    = Some this'
    ∧ last (_recentDocs this') = Some {| hash := 2; name := "doc" |}
    ∧ _recentDocs this' ≡ₚ _recentDocs sample_body
    ∧ ∀ other : string,
        addRecentDocument 0 {| fhash := 2; fname := other |} sample_body
        = Some this'.
Proof.
  apply (addRecentDocument_keeps_name 0 {| fhash := 2; fname := "renamed" |}
           sample_body {| hash := 2; name := "doc" |}).
  reflexivity.
Defined.

Lemma addRecentDocument_total_witness :
  ∃ this',
    addRecentDocument (S (excess sample_body)) (sample_file 7) sample_body
    = Some this'
    ∧ (∀ fuel, (excess sample_body < fuel)%nat →
         addRecentDocument fuel (sample_file 7) sample_body = Some this')
    ∧ JSArray.len (_recentDocs this')
      ≤ Z.max (_numRecentDocs sample_body)
              (JSArray.len (_recentDocs sample_body)).
Proof.
  apply (addRecentDocument_total (sample_file 7) sample_body).
  simpl. lia.
Defined.

Lemma splice_absent_no_op_witness :
  qlsplice 4%nat sample_body = (false, sample_body)
  ∧ (notifySplice 9%nat sample_body).1 = sample_body
  ∧ ∀ h : Handle,
      ((qlsplice h sample_body).1 = true ↔ h ∈ _ql sample_body)
      ∧ (h ∈ _ql sample_body →
           ∃ l1 l2, _ql sample_body = l1 ++ h :: l2 ∧ (h ∉ l1)
                    ∧ qlsplice h sample_body
                      = (true, set_ql (l1 ++ l2) sample_body)).
Proof.
  apply (splice_absent_no_op 4%nat 9%nat sample_body).
  - by_decide.
  - by_decide.
Defined.

Lemma notifySplice_moves_up_the_rest_witness :
  ∃ l1 l2,
    _n sample_body = l1 ++ 3%nat :: l2
    ∧ _n (notifySplice 3%nat sample_body).1 = l1 ++ l2
    ∧ (3%nat ∉ _n (notifySplice 3%nat sample_body).1)
    ∧ (∀ h, h ∈ _n sample_body → h ≠ 3%nat →
         h ∈ _n (notifySplice 3%nat sample_body).1)
    ∧ (notifySplice 3%nat sample_body).2
      = MoveUp <$> _n (notifySplice 3%nat sample_body).1
    ∧ (∀ h, h ∈ _n (notifySplice 3%nat sample_body).1 →
         moveUp_count h (notifySplice 3%nat sample_body).2 = 1%nat)
    ∧ moveUp_count 3%nat (notifySplice 3%nat sample_body).2 = 0%nat.
Proof.
  apply (notifySplice_moves_up_the_rest 3%nat sample_body).
  - by_decide.
  - by_decide.
Defined.

Lemma notifySplice_absent_moves_up_all_witness :
  (notifySplice 9%nat sample_body).1 = sample_body
  ∧ (notifySplice 9%nat sample_body).2 = MoveUp <$> _n sample_body
  ∧ (∀ h, h ∈ _n sample_body →
       moveUp_count h (notifySplice 9%nat sample_body).2 = 1%nat)
  ∧ moveUp_count 9%nat (notifySplice 9%nat sample_body).2 = 0%nat.
Proof.
  apply (notifySplice_absent_moves_up_all 9%nat sample_body).
  - by_decide.
  - by_decide.
Defined.

Lemma closeQuicklook_terminates_empty_witness :
  ∃ this',
    closeQuicklook ZettlrQuicklook_close (S (length (_ql sample_body)))
      sample_body = Some this'
    ∧ _ql this' = []
    ∧ ∀ fuel, (length (_ql sample_body) < fuel)%nat →
        closeQuicklook ZettlrQuicklook_close fuel sample_body = Some this'.
Proof.
  apply (closeQuicklook_terminates_empty ZettlrQuicklook_close sample_body).
  intros zql st. reflexivity.
Defined.

(** * Further properties of the recent documents *)

Lemma shift_loop_frame fuel this r :
  shift_loop fuel this = Some r →
  _ql r = _ql this ∧ _n r = _n this
  ∧ _numRecentDocs r = _numRecentDocs this.
Proof.
  revert this. induction fuel as [|fuel IH]; intros this; [done|]. simpl.
  destruct (_ >? _).
  - intros Hrun. by destruct (IH _ Hrun) as (-> & -> & ->).
  - by intros [= <-].
Qed.

(** Whenever a call returns, the file recorded is the most recent entry:
    the last entry carries its hash, so [find] by that hash succeeds, and
    the quicklook windows, the notifications and the capacity are what
    they were. *)
Theorem addRecentDocument_most_recent_last (fuel : nat) (file : ZettlrFile)
    (this this' : ZettlrBody) :
  addRecentDocument fuel file this = Some this' →
  last (hash <$> _recentDocs this') = Some (fhash file)
  ∧ is_Some (JSArray.find (λ elem, hash elem = fhash file)
               (_recentDocs this'))
  ∧ _ql this' = _ql this ∧ _n this' = _n this
  ∧ _numRecentDocs this' = _numRecentDocs this.
Proof.
  intros Hrun.
  assert (last (hash <$> _recentDocs this') = Some (fhash file)
          ∧ _ql this' = _ql this ∧ _n this' = _n this
          ∧ _numRecentDocs this' = _numRecentDocs this) as (Hlast & ? & ? & ?).
  { destruct (present_or_absent file (_recentDocs this))
      as [(l1 & e & l2 & Hdocs & He & Hl1)|Habs].
    - rewrite (addRecentDocument_present fuel file this l1 e l2) in Hrun
        by done.
      injection Hrun as <-. simpl. split; [|done].
      by rewrite (assoc_L (++)), fmap_snoc, last_snoc, He.
    - unfold addRecentDocument in Hrun.
      rewrite (proj2 (find_None _ _) Habs) in Hrun.
      destruct (shift_loop fuel this) as [this1|] eqn:E; [|done].
      apply shift_loop_frame in E as (? & ? & ?).
      injection Hrun as <-. simpl. split; [|done].
      unfold JSArray.push. by rewrite fmap_snoc, last_snoc. }
  split_and!; [done| |done..].
  rewrite fmap_last in Hlast.
  destruct (last (_recentDocs this')) as [e|] eqn:E; [|done].
  injection Hlast as He.
  apply (find_is_Some _ _ e); [|done].
  apply last_Some in E as [l ->]. apply elem_of_app. right. by left.
Qed.

(** Recording a file that is not in the list keeps the newest entries that
    leave room for one more and appends a new entry made of the hash and
    the name of the file. Below capacity nothing is dropped, at capacity
    the oldest entry is, and from [capacity - 1] entries on the list ends
    up with exactly [capacity] entries. *)
Theorem addRecentDocument_unlisted (fuel : nat) (file : ZettlrFile)
    (this : ZettlrBody) :
  Forall (λ y, hash y ≠ fhash file) (_recentDocs this) →
  1 ≤ _numRecentDocs this → (excess this < fuel)%nat →
  ∃ docs',
    addRecentDocument fuel file this = Some (set_recentDocs docs' this)
    ∧ docs' = drop (excess this) (_recentDocs this) ++ [entry_of file]
    ∧ (JSArray.len (_recentDocs this) < _numRecentDocs this →
         docs' = _recentDocs this ++ [entry_of file])
    ∧ (JSArray.len (_recentDocs this) = _numRecentDocs this →
         docs' = tail (_recentDocs this) ++ [entry_of file])
    ∧ (_numRecentDocs this - 1 ≤ JSArray.len (_recentDocs this) →
         JSArray.len docs' = _numRecentDocs this).
Proof.
  intros Habs Hcap Hfuel. eexists. split_and!.
  - by apply addRecentDocument_absent.
  - done.
  - intros Hlt. replace (excess this) with 0%nat by (unfold excess; lia).
    by rewrite drop_0.
  - intros Heq. replace (excess this) with 1%nat by (unfold excess; lia).
    by destruct (_recentDocs this).
  - intros Hge. unfold JSArray.len in *. rewrite length_app, length_drop.
    simpl. unfold excess, JSArray.len. lia.
Qed.

(** With distinct hashes in the list, recording the same file twice in a
    row leaves what recording it once leaves. *)
Theorem addRecentDocument_twice (fuel : nat) (file : ZettlrFile)
    (this : ZettlrBody) :
  NoDup (hash <$> _recentDocs this) →
  1 ≤ _numRecentDocs this → (excess this < fuel)%nat →
  ∃ this',
    addRecentDocument fuel file this = Some this'
    ∧ addRecentDocument fuel file this' = Some this'.
Proof.
  intros Hnd Hcap Hfuel.
  destruct (present_or_absent file (_recentDocs this))
    as [(l1 & e & l2 & Hdocs & He & Hl1)|Habs].
  - exists (set_recentDocs (l1 ++ l2 ++ [e]) this). split.
    + by apply addRecentDocument_present.
    + rewrite (addRecentDocument_present fuel file _ (l1 ++ l2) e []);
        simpl; [by rewrite <- (assoc_L (++))|by rewrite <- (assoc_L (++))|done|].
      rewrite Hdocs, fmap_app, fmap_cons in Hnd.
      apply NoDup_app in Hnd as (_ & _ & Hnd).
      apply NoDup_cons in Hnd as [Hnin _].
      apply Forall_app. split; [done|]. apply Forall_forall.
      intros y Hy Heq. apply Hnin. rewrite He, <- Heq.
      by apply list_elem_of_fmap_2.
  - eexists. split; [by apply addRecentDocument_absent|].
    rewrite (addRecentDocument_present fuel file _
               (drop (excess this) (_recentDocs this)) (entry_of file) []);
      simpl; [done|done|done|].
    by apply Forall_drop.
Qed.

(** For any capacity of at least 1: from a list within the capacity and
    with distinct hashes, every sequence of calls returns, keeps the
    capacity, and leaves a list within the capacity and with distinct
    hashes. *)
Theorem addRecentDocuments_keep_invariant (fuel : nat)
    (files : list ZettlrFile) (this : ZettlrBody) :
  (2 ≤ fuel)%nat → 1 ≤ _numRecentDocs this →
  JSArray.len (_recentDocs this) ≤ _numRecentDocs this →
  NoDup (hash <$> _recentDocs this) →
  ∃ this', addRecentDocuments fuel files this = Some this'
    ∧ _numRecentDocs this' = _numRecentDocs this
    ∧ JSArray.len (_recentDocs this') ≤ _numRecentDocs this'
    ∧ NoDup (hash <$> _recentDocs this').
Proof. apply addRecentDocuments_invariant. Qed.

(** ** The list against the order of last use *)

Lemma filter_ne_absent (h : Z) (l : list Z) :
  h ∉ l → filter (λ x, x ≠ h) l = l.
Proof.
  induction l as [|x l IH]; [done|].
  intros [Hne Hnin]%not_elem_of_cons. rewrite filter_cons.
  destruct (decide (x ≠ h)) as [_|Heq]; [by rewrite IH|].
  destruct Heq. congruence.
Qed.

Lemma filter_ne_middle (h : Z) (l1 l2 : list Z) :
  h ∉ l1 → h ∉ l2 → filter (λ x, x ≠ h) (l1 ++ h :: l2) = l1 ++ l2.
Proof.
  intros H1 H2. rewrite filter_app, filter_cons.
  destruct (decide (h ≠ h)) as [Hne|_]; [done|].
  by rewrite !filter_ne_absent.
Qed.

Lemma recency_touch_NoDup (h : Z) (order : list Z) :
  NoDup order → NoDup (recency_touch h order).
Proof.
  intros Hnd. unfold recency_touch. apply NoDup_app. split_and!.
  - by apply NoDup_filter.
  - intros x [Hx _]%list_elem_of_filter ->%list_elem_of_singleton. done.
  - apply NoDup_singleton.
Qed.

Lemma last_n_split {A} (n : nat) (l : list A) :
  l = take (length l - n) l ++ last_n n l
  ∧ length (take (length l - n) l) = (length l - n)%nat
  ∧ length (last_n n l) = Nat.min n (length l).
Proof.
  unfold last_n. split_and!.
  - by rewrite take_drop.
  - rewrite length_take. lia.
  - rewrite length_drop. lia.
Qed.

Lemma last_n_app_exact {A} (n : nat) (l1 l2 : list A) :
  length l1 = (length l1 + length l2 - n)%nat → last_n n (l1 ++ l2) = l2.
Proof.
  intros Hlen. unfold last_n. rewrite length_app.
  by apply drop_app_length'.
Qed.

Lemma last_n_short {A} (n : nat) (l : list A) :
  (length l ≤ n)%nat → last_n n l = l.
Proof.
  intros Hlen. unfold last_n. by replace (_ - _)%nat with 0%nat by lia.
Qed.

(** One call moves the list along with the order of last use. *)
Lemma addRecentDocument_recency fuel file this order :
  (2 ≤ fuel)%nat → 1 ≤ _numRecentDocs this → NoDup order →
  hash <$> _recentDocs this = last_n (Z.to_nat (_numRecentDocs this)) order →
  ∃ this', addRecentDocument fuel file this = Some this'
    ∧ _numRecentDocs this' = _numRecentDocs this
    ∧ hash <$> _recentDocs this'
      = last_n (Z.to_nat (_numRecentDocs this))
          (recency_touch (fhash file) order).
Proof.
  intros Hfuel Hcap Hnd Hdocs.
  set (c := Z.to_nat (_numRecentDocs this)) in *.
  assert (1 ≤ c)%nat as Hc by (unfold c; lia).
  assert (_numRecentDocs this = Z.of_nat c) as Hcz by (unfold c; lia).
  destruct (last_n_split c order) as (Hsplit & HlenP & HlenH).
  set (P := take (length order - c) order) in *.
  rewrite <- Hdocs in Hsplit, HlenH. rewrite length_fmap in HlenH.
  destruct (present_or_absent file (_recentDocs this))
    as [(l1 & e & l2 & Hl & He & Hl1)|Habs].
  - eexists. split; [by eapply addRecentDocument_present|]. simpl.
    split; [done|].
    rewrite Hl, fmap_app, fmap_cons, He in Hsplit.
    rewrite Hsplit in Hnd.
    apply NoDup_app in Hnd as (_ & HP & Hnd).
    apply NoDup_app in Hnd as (_ & H1 & Hnd).
    apply NoDup_cons in Hnd as [H2 _].
    assert (fhash file ∉ P) as HhP.
    { intros Hin. apply (HP _ Hin). apply elem_of_app. right. by left. }
    assert (fhash file ∉ hash <$> l1) as Hh1.
    { intros Hin. apply (H1 _ Hin). by left. }
    unfold recency_touch. rewrite Hsplit.
    rewrite (assoc_L (++) P), filter_ne_middle; [|by apply not_elem_of_app|done].
    rewrite <- !(assoc_L (++)).
    rewrite last_n_app_exact.
    + rewrite !fmap_app. simpl. by rewrite He.
    + rewrite !length_app, !length_fmap. simpl.
      rewrite Hl, length_app in HlenH. simpl in HlenH.
      assert (length order = (length P + (length l1 + S (length l2)))%nat) as Ho.
      { rewrite Hsplit at 1.
        by rewrite !length_app, length_cons, !length_fmap. }
      lia.
  - assert (fhash file ∉ hash <$> _recentDocs this) as HhH.
    { intros (y & Hy & Hin)%list_elem_of_fmap.
      rewrite Forall_forall in Habs. by apply (Habs y). }
    assert (length order = (length P + length (_recentDocs this))%nat) as Ho.
    { rewrite Hsplit at 1. by rewrite length_app, length_fmap. }
    assert (excess this = if decide (c ≤ length order)%nat then 1%nat else 0%nat)
      as Hex.
    { unfold excess, JSArray.len. case_decide; lia. }
    eexists. split; [apply addRecentDocument_absent; [done|done|]|].
    { rewrite Hex. case_decide; lia. }
    simpl. split; [done|].
    rewrite fmap_app, fmap_drop. simpl.
    unfold recency_touch. rewrite Hsplit at 1.
    rewrite filter_app, (filter_ne_absent _ (hash <$> _)) by done.
    rewrite Hex. case_decide as Hfull.
    + rewrite <- (assoc_L (++)).
      unfold last_n. rewrite !length_app, length_fmap. simpl.
      rewrite drop_app_ge by lia.
      rewrite drop_app_le by (rewrite length_fmap; lia).
      f_equal. f_equal. lia.
    + assert (P = []) as ->.
      { apply nil_length_inv. lia. }
      simpl. rewrite last_n_short; [done|].
      rewrite length_app, length_fmap. simpl. lia.
Qed.

Lemma addRecentDocuments_recency fuel files this order :
  (2 ≤ fuel)%nat → 1 ≤ _numRecentDocs this → NoDup order →
  hash <$> _recentDocs this = last_n (Z.to_nat (_numRecentDocs this)) order →
  ∃ this', addRecentDocuments fuel files this = Some this'
    ∧ hash <$> _recentDocs this'
      = last_n (Z.to_nat (_numRecentDocs this))
          (foldl (λ order file, recency_touch (fhash file) order) order files).
Proof.
  intros Hfuel. revert this order.
  induction files as [|file files IH]; intros this order Hcap Hnd Hdocs; simpl.
  - by exists this.
  - destruct (addRecentDocument_recency fuel file this order)
      as (this1 & -> & Hcap1 & Hdocs1); [done..|]. simpl.
    rewrite <- Hcap1 in *.
    apply IH; [done|by apply recency_touch_NoDup|done].
Qed.

(** Starting from an empty list, with any capacity of at least 1, the
    hashes in the list after any sequence of calls are the [capacity] most
    recently recorded distinct hashes, least recent first. *)
Theorem addRecentDocuments_least_recently_used (fuel : nat)
    (files : list ZettlrFile) (this : ZettlrBody) :
  (2 ≤ fuel)%nat → 1 ≤ _numRecentDocs this → _recentDocs this = [] →
  ∃ this', addRecentDocuments fuel files this = Some this'
    ∧ hash <$> _recentDocs this'
      = last_n (Z.to_nat (_numRecentDocs this)) (recency_order files).
Proof.
  intros Hfuel Hcap Hempty.
  apply addRecentDocuments_recency; [done|done|constructor|].
  by rewrite Hempty.
Qed.

(** * Further properties of quicklook windows and notifications *)

Lemma set_ql_id this : set_ql (_ql this) this = this.
Proof. by destruct this. Qed.

Lemma set_n_id this : set_n (_n this) this = this.
Proof. by destruct this. Qed.

(** Opening a window and splicing it out again gives back the body as it
    was, and [qlsplice] answers true. *)
Theorem quicklook_then_qlsplice (zql : Handle) (this : ZettlrBody) :
  zql ∉ _ql this →
  qlsplice zql (quicklook zql this) = (true, this).
Proof.
  intros Hfresh. unfold qlsplice, quicklook, JSArray.push. simpl.
  rewrite indexOf_first by done. rewrite splice1_middle, app_nil_r.
  destruct (Z.gtb_spec (Z.of_nat (length (_ql this))) (-1)); [|lia].
  by destruct this.
Qed.

(** A window that asks twice to be spliced out: in a collection that holds
    each window once, the first request takes out that window and no
    other, and the second request answers false and changes nothing. *)
Theorem qlsplice_twice (zql : Handle) (this : ZettlrBody) :
  NoDup (_ql this) → zql ∈ _ql this →
  ∃ this',
    qlsplice zql this = (true, this')
    ∧ (∀ h, h ∈ _ql this' ↔ h ∈ _ql this ∧ h ≠ zql)
    ∧ S (length (_ql this')) = length (_ql this)
    ∧ _n this' = _n this ∧ _recentDocs this' = _recentDocs this
    ∧ qlsplice zql this' = (false, this').
Proof.
  intros Hnd Hin.
  destruct (qlsplice_present zql this Hin) as (l1 & l2 & Hql & Hl1 & ->).
  rewrite Hql in Hnd. rewrite <- Permutation_middle in Hnd.
  apply NoDup_cons in Hnd as [Hout _].
  exists (set_ql (l1 ++ l2) this). simpl. split_and!; [done| | |done|done|].
  - intros h. rewrite Hql, !elem_of_app, elem_of_cons. split.
    + intros Hh. split; [tauto|]. intros ->. apply Hout.
      by apply elem_of_app.
    + tauto.
  - rewrite Hql, !length_app. simpl. lia.
  - by apply qlsplice_absent.
Qed.

(** Raising a notification and splicing it out again gives back the body
    as it was, and every notification that was there before is told to
    move up. *)
Theorem notify_then_notifySplice (ntf : Handle) (this : ZettlrBody) :
  ntf ∉ _n this →
  notifySplice ntf (notify ntf this) = (this, MoveUp <$> _n this).
Proof.
  intros Hfresh. unfold notifySplice, notify, JSArray.push. simpl.
  rewrite indexOf_first by done. rewrite splice1_middle, app_nil_r.
  destruct (Z.gtb_spec (Z.of_nat (length (_n this))) (-1)); [|lia].
  simpl. by destruct this.
Qed.

(** Both collections hold every object at most once, and keep doing so:
    opening a window or raising a notification adds a new object, and
    splicing only removes. *)
Theorem collections_stay_duplicate_free (zql ntf : Handle)
    (this : ZettlrBody) :
  NoDup (_ql this) → NoDup (_n this) →
  zql ∉ _ql this → ntf ∉ _n this →
  NoDup (_ql (quicklook zql this))
  ∧ NoDup (_n (notify ntf this))
  ∧ ∀ h : Handle,
      NoDup (_ql (qlsplice h this).2) ∧ NoDup (_n (notifySplice h this).1).
Proof.
  intros Hql Hn Hzql Hntf. split_and!.
  - simpl. apply NoDup_app. split_and!; [done| |apply NoDup_singleton].
    by intros h Hh ->%list_elem_of_singleton.
  - by apply notify_NoDup.
  - intros h. split; [|by apply notifySplice_NoDup].
    destruct (decide (h ∈ _ql this)) as [Hin|Hnin].
    + destruct (qlsplice_present h this Hin) as (l1 & l2 & Hsplit & _ & ->).
      simpl. rewrite Hsplit, <- Permutation_middle in Hql.
      by apply NoDup_cons in Hql as [_ Hql].
    + by rewrite qlsplice_absent.
Qed.

(** When closing a window splices it out the way [qlsplice] does,
    [closeQuicklook] calls [close()] once for every entry of [_ql], from
    the first to the last, and ends in the state the loop without the
    record of calls ends in. *)
Theorem closeQuicklook_closes_each_once
    (close : Handle → ZettlrBody → ZettlrBody) (fuel : nat)
    (this : ZettlrBody) :
  (∀ zql st, _ql (close zql st) = _ql (qlsplice zql st).2) →
  (length (_ql this) < fuel)%nat →
  ∃ this',
    closeQuicklook_calls close fuel this = Some (_ql this, this')
    ∧ closeQuicklook close fuel this = Some this'
    ∧ _ql this' = [].
Proof.
  intros Hclose. revert this.
  induction fuel as [|fuel IH]; intros this Hfuel; [lia|].
  simpl. destruct (_ql this) as [|zql ql] eqn:Hql; simpl.
  - exists this. by rewrite Hql.
  - destruct (Z.gtb_spec (JSArray.len (zql :: ql)) 0) as [_|Hle].
    + pose proof (close_first close Hclose zql ql this Hql) as Hrest.
      destruct (IH (close zql this)) as (this' & Hcalls & Hrun & Hempty).
      { rewrite Hrest. simpl in Hfuel. lia. }
      exists this'. rewrite Hcalls, Hrun. simpl. by rewrite Hrest.
    + unfold JSArray.len in Hle. simpl in Hle. lia.
Qed.

(** When closing a window leaves [_ql] as it is (a teardown that is put
    off, say), [closeQuicklook] on a body with an open window never
    returns: the first window is closed again and again. *)
Theorem closeQuicklook_needs_the_splice
    (close : Handle → ZettlrBody → ZettlrBody) (fuel : nat)
    (this : ZettlrBody) :
  (∀ zql st, _ql (close zql st) = _ql st) →
  _ql this ≠ [] →
  closeQuicklook close fuel this = None.
Proof.
  intros Hclose. revert this.
  induction fuel as [|fuel IH]; intros this Hopen; [done|].
  simpl. destruct (_ql this) as [|zql ql] eqn:Hql; [done|]. simpl.
  destruct (Z.gtb_spec (JSArray.len (zql :: ql)) 0) as [_|Hle].
  - apply IH. by rewrite Hclose, Hql.
  - unfold JSArray.len in Hle. simpl in Hle. lia.
Qed.

(** * Properties of the prompts *)

(** The prompts for a new file and for a new directory open a popup only
    for a directory whose type is directory; the prompt for a virtual
    directory opens one for every directory given; the prompt to rename a
    directory does not test its argument and throws when there is none. *)
Theorem prompts_need_a_directory (trans : string → string)
    (dir : option ZettlrDir) :
  (is_Some (requestFileName trans dir)
   ↔ ∃ d, dir = Some d ∧ dtype d = "directory")
  ∧ (is_Some (requestDirName trans dir)
     ↔ ∃ d, dir = Some d ∧ dtype d = "directory")
  ∧ (is_Some (requestVirtualDirName trans dir) ↔ is_Some dir)
  ∧ (requestNewDirName trans dir = Throw ↔ dir = None).
Proof.
  destruct dir as [d|]; simpl.
  - split_and!.
    + case_bool_decide as Hty; split.
      * by intros [? ?].
      * intros (d' & [= <-] & ?). done.
      * intros _. exists d. split; [done|].
        by destruct (decide (dtype d = "directory")).
      * by eexists.
    + case_bool_decide as Hty; split.
      * by intros [? ?].
      * intros (d' & [= <-] & ?). done.
      * intros _. exists d. split; [done|].
        by destruct (decide (dtype d = "directory")).
      * by eexists.
    + split; by eexists.
    + split; done.
  - split_and!.
    + split; [by intros [? ?]|by intros (? & ? & ?)].
    + split; [by intros [? ?]|by intros (? & ? & ?)].
    + split; by intros [? ?].
    + done.
Qed.

(** Whichever of the four prompts opened the popup for a directory: a
    dismissed popup sends nothing, an empty form throws before anything is
    sent, and a submitted form sends exactly one message, with the value
    of its first field as name and the hash of that directory, on the
    channel of the prompt. *)
Theorem prompts_send_for_their_directory (trans : string → string)
    (d : ZettlrDir) (p : Popup) :
  requestFileName trans (Some d) = Some p
  ∨ requestDirName trans (Some d) = Some p
  ∨ requestVirtualDirName trans (Some d) = Some p
  ∨ requestNewDirName trans (Some d) = Normal p →
  ∃ chan,
    popup_callback p None = Normal []
    ∧ popup_callback p (Some []) = Throw
    ∧ (∀ first rest,
         popup_callback p (Some (first :: rest))
         = Normal [ {| channel := chan;
                       payload := {| payload_name := value first;
                                     payload_hash := dhash d |} |} ])
    ∧ (requestFileName trans (Some d) = Some p → chan = "file-new")
    ∧ (requestDirName trans (Some d) = Some p → chan = "dir-new")
    ∧ (requestVirtualDirName trans (Some d) = Some p → chan = "dir-new-vd")
    ∧ (requestNewDirName trans (Some d) = Normal p → chan = "dir-rename").
Proof.
  simpl. intros [H|[H|[H|H]]].
  - exists "file-new". case_bool_decide; [done|]. injection H as <-.
    split_and!; done.
  - exists "dir-new". case_bool_decide; [done|]. injection H as <-.
    split_and!; done.
  - exists "dir-new-vd". injection H as <-.
    split_and!; try done; case_bool_decide; done.
  - exists "dir-rename". injection H as <-.
    split_and!; try done; case_bool_decide; done.
Qed.

Lemma setTarget_shown (findObject : Z → option TargetObject) (Number : Type)
    (parseInt : string → Number) (ToString : Z → string)
    (hash : Z) (p : TargetPopup Number) :
  setTarget findObject Number parseInt ToString hash = Some p →
  ∃ file, findObject hash = Some file
    ∧ target_cnt _ p
      = match target file with
        | Some t =>
            if truthy_string (target_mode t) && truthy_number (target_count t)
            then {| mode := target_mode t; count := target_count t |}
            else {| mode := "words"; count := 0 |}
        | None => {| mode := "words"; count := 0 |}
        end.
Proof.
  unfold setTarget. destruct (findObject hash) as [file|]; [|done].
  intros [= <-]. by exists file.
Qed.

(** The target popup never offers a mode without a count: the mode it
    shows is not empty, a count of 0 comes with the mode words, and a stored
    target whose count is 0 is shown as words and 0 whatever its mode. A
    stored target with a mode is shown with its own count. *)
Theorem setTarget_shows_words_for_count_0
    (findObject : Z → option TargetObject) (Number : Type)
    (parseInt : string → Number) (ToString : Z → string)
    (hash : Z) (p : TargetPopup Number) :
  setTarget findObject Number parseInt ToString hash = Some p →
  mode (target_cnt _ p) ≠ ""
  ∧ (count (target_cnt _ p) = 0 → mode (target_cnt _ p) = "words")
  ∧ ∀ file t,
      findObject hash = Some file → target file = Some t →
      (target_count t = 0 →
         target_cnt _ p = {| mode := "words"; count := 0 |})
      ∧ (target_mode t ≠ "" → count (target_cnt _ p) = target_count t).
Proof.
  intros (file & Hfile & ->)%setTarget_shown.
  unfold truthy_string, truthy_number.
  split_and!.
  - destruct (target file) as [t|]; [|done].
    repeat case_bool_decide; simpl; done.
  - destruct (target file) as [t|]; [|done].
    repeat case_bool_decide; simpl; done.
  - intros file' t Hfile' Ht. rewrite Hfile in Hfile'.
    injection Hfile' as <-. rewrite Ht.
    split; intros H; repeat case_bool_decide; simpl; congruence.
Qed.

(** The callback of the target popup sends nothing when the popup is
    dismissed, throws before sending when the form has fewer than two
    fields, and otherwise sends one message on set-target whose mode is the
    value of the second field and whose count is [parseInt] of the value of
    the first. *)
Theorem setTarget_sends_second_field_as_mode
    (findObject : Z → option TargetObject) (Number : Type)
    (parseInt : string → Number) (ToString : Z → string)
    (hash : Z) (p : TargetPopup Number) :
  setTarget findObject Number parseInt ToString hash = Some p →
  target_callback _ p None = Normal []
  ∧ (∀ fields, (length fields < 2)%nat →
       target_callback _ p (Some fields) = Throw)
  ∧ ∀ first second rest,
      target_callback _ p (Some (first :: second :: rest))
      = Normal [ {| target_channel := "set-target";
                    target_payload :=
                      {| set_hash := parseInt (ToString hash);
                         set_mode := value second;
                         set_count := parseInt (value first) |} |} ].
Proof.
  unfold setTarget. destruct (findObject hash) as [file|]; [|done].
  intros [= <-]. simpl. split_and!; [done| |done].
  intros [|first [|second rest]] Hlen; simpl in *; [done|done|lia].
Qed.

(** * Properties of the dark theme and of the heading levels *)

Lemma filter_ne_absent_string (c : string) (l : list string) :
  c ∉ l → filter (λ x, x ≠ c) l = l.
Proof.
  induction l as [|x l IH]; [done|].
  intros [Hne Hnin]%not_elem_of_cons. rewrite filter_cons.
  destruct (decide (x ≠ c)) as [_|Heq]; [by rewrite IH|].
  destruct Heq. congruence.
Qed.

(** After [darkTheme (val)] the body has the class dark exactly when
    [val] is truthy, every other class is there or not as before, and a
    second call with the same argument changes nothing. *)
Theorem darkTheme_sets_dark (val : bool) (body : list string) :
  JQuery.hasClass "dark" (darkTheme val body) = val
  ∧ (∀ c, c ≠ "dark" →
       JQuery.hasClass c (darkTheme val body) = JQuery.hasClass c body)
  ∧ darkTheme val (darkTheme val body) = darkTheme val body.
Proof.
  assert (∀ (c : string) (cls : list string),
            c ∉ filter (λ x, x ≠ c) cls) as Hgone.
  { intros c cls [Hne _]%list_elem_of_filter. done. }
  unfold darkTheme, JQuery.addClass, JQuery.removeClass, JQuery.hasClass.
  destruct val; simpl.
  - destruct (decide ("dark" ∈ body)) as [Hin|Hnin].
    + rewrite !(bool_decide_eq_true_2 ("dark" ∈ body)) by done. simpl.
      by rewrite ?(bool_decide_eq_true_2 ("dark" ∈ body)) by done.
    + rewrite !(bool_decide_eq_false_2 ("dark" ∈ body)) by done. simpl.
      rewrite !(bool_decide_eq_true_2 ("dark" ∈ body ++ ["dark"]))
        by (apply elem_of_app; right; by left).
      simpl. split_and!; [done| |done].
      intros c Hc. apply bool_decide_ext. rewrite elem_of_app.
      rewrite list_elem_of_singleton. tauto.
  - split_and!.
    + by apply bool_decide_eq_false_2.
    + intros c Hc. apply bool_decide_ext. rewrite list_elem_of_filter. tauto.
    + by apply filter_ne_absent_string.
Qed.

Lemma switch_fall_through_no_case {A} (x : string)
    (cases : list (string * A)) :
  x ∉ cases.*1 → switch_fall_through x cases = [].
Proof.
  induction cases as [|[label body] cases IH]; [done|]. simpl.
  intros [Hne Hnin]%not_elem_of_cons.
  rewrite bool_decide_eq_false_2 by done. by apply IH.
Qed.


(** Moving over anything that is not the heading of a level marks
    nothing: over an element that is no span the class of the header
    becomes that of level 1, over a span with another class name the class
    of the header becomes that class name. *)
Theorem header_formatting_marks_nothing_else (is_span : bool)
    (className : string) :
  (∀ level, (1 ≤ level ≤ 6)%nat → className ≠ markdownHeading level) →
  header_formatting_mousemove is_span className
  = [ RemoveClass ".formatting span" "active";
      SetProp ".formatting #header-formatting" "class"
        (if is_span then className else "markdownHeading1") ]
  ∧ ∀ other, header_formatting_mousemove false other
             = [ RemoveClass ".formatting span" "active";
                 SetProp ".formatting #header-formatting" "class"
                   "markdownHeading1" ].
Proof.
  intros Hother. split; [|done].
  destruct is_span; [|done]. unfold header_formatting_mousemove. simpl negb.
  cbv iota. rewrite switch_fall_through_no_case; [done|].
  simpl. rewrite !not_elem_of_cons. split_and!;
    [apply (Hother 6%nat)|apply (Hother 5%nat)|apply (Hother 4%nat)
    |apply (Hother 3%nat)|apply (Hother 2%nat)|apply (Hother 1%nat)
    |apply not_elem_of_nil]; lia.
Qed.

(** With a capacity below 1 a call returns exactly when the file is
    already in the list: the branch that moves an entry does not enter the
    loop, and the loop of the other branch never ends. *)
Theorem addRecentDocument_capacity_below_1 (fuel : nat) (file : ZettlrFile)
    (this : ZettlrBody) :
  _numRecentDocs this ≤ 0 →
  (is_Some (addRecentDocument fuel file this)
   ↔ fhash file ∈ (hash <$> _recentDocs this)).
Proof.
  intros Hcap.
  destruct (present_or_absent file (_recentDocs this))
    as [(l1 & e & l2 & Hdocs & He & Hl1)|Habs].
  - rewrite (addRecentDocument_present fuel file this l1 e l2) by done.
    split; [|by eexists]. intros _. rewrite Hdocs, <- He.
    apply list_elem_of_fmap_2, elem_of_app. right. by left.
  - rewrite addRecentDocument_diverges by done. split.
    + by intros [? ?].
    + intros (y & Hy & Hin)%list_elem_of_fmap.
      rewrite Forall_forall in Habs. by destruct (Habs y).
Qed.

(** * The further theorems at concrete inputs *)

Lemma addRecentDocuments_least_recently_used_witness :
  ∃ this',
    addRecentDocuments 2 (sample_files ++ [sample_file 3]) constructor
    = Some this'
    ∧ hash <$> _recentDocs this'
      = last_n (Z.to_nat (_numRecentDocs constructor))
          (recency_order (sample_files ++ [sample_file 3])).
Proof.
  apply (addRecentDocuments_least_recently_used 2
           (sample_files ++ [sample_file 3]) constructor).
  - lia.
  - simpl. lia.
  - reflexivity.
Defined.

Lemma addRecentDocument_most_recent_last_witness :
  ∃ this',
    addRecentDocument 2 (sample_file 7) sample_body = Some this'
    ∧ last (hash <$> _recentDocs this') = Some (fhash (sample_file 7))
    ∧ is_Some (JSArray.find (λ elem, hash elem = fhash (sample_file 7))
                 (_recentDocs this'))
    ∧ _ql this' = _ql sample_body ∧ _n this' = _n sample_body
    ∧ _numRecentDocs this' = _numRecentDocs sample_body.
Proof.
  eexists. split; [reflexivity|].
  apply (addRecentDocument_most_recent_last 2 (sample_file 7) sample_body).
  reflexivity.
Defined.

Lemma addRecentDocument_unlisted_witness :
  ∃ docs',
    addRecentDocument 2 (sample_file 7) sample_body
    = Some (set_recentDocs docs' sample_body)
    ∧ docs' = drop (excess sample_body) (_recentDocs sample_body)
              ++ [entry_of (sample_file 7)]
    ∧ (JSArray.len (_recentDocs sample_body) < _numRecentDocs sample_body →
         docs' = _recentDocs sample_body ++ [entry_of (sample_file 7)])
    ∧ (JSArray.len (_recentDocs sample_body) = _numRecentDocs sample_body →
         docs' = tail (_recentDocs sample_body) ++ [entry_of (sample_file 7)])
    ∧ (_numRecentDocs sample_body - 1 ≤ JSArray.len (_recentDocs sample_body) →
         JSArray.len docs' = _numRecentDocs sample_body).
Proof.
  apply (addRecentDocument_unlisted 2 (sample_file 7) sample_body).
  - by_decide.
  - simpl. lia.
  - vm_compute. lia.
Defined.

Lemma addRecentDocument_twice_witness :
  ∃ this',
    addRecentDocument 2 (sample_file 2) sample_body = Some this'
    ∧ addRecentDocument 2 (sample_file 2) this' = Some this'.
Proof.
  apply (addRecentDocument_twice 2 (sample_file 2) sample_body).
  - by_decide.
  - simpl. lia.
  - vm_compute. lia.
Defined.

Lemma addRecentDocuments_keep_invariant_witness :
  ∃ this', addRecentDocuments 2 sample_files capacity_3 = Some this'
    ∧ _numRecentDocs this' = _numRecentDocs capacity_3
    ∧ JSArray.len (_recentDocs this') ≤ _numRecentDocs this'
    ∧ NoDup (hash <$> _recentDocs this').
Proof.
  apply (addRecentDocuments_keep_invariant 2 sample_files capacity_3).
  - lia.
  - by_decide.
  - by_decide.
  - by_decide.
Defined.

Lemma addRecentDocument_capacity_below_1_witness :
  is_Some (addRecentDocument 5 (sample_file 2)
             (set_numRecentDocs 0 sample_body))
  ↔ fhash (sample_file 2)
    ∈ (hash <$> _recentDocs (set_numRecentDocs 0 sample_body)).
Proof.
  apply (addRecentDocument_capacity_below_1 5 (sample_file 2)
           (set_numRecentDocs 0 sample_body)).
  simpl. lia.
Defined.

Lemma quicklook_then_qlsplice_witness :
  qlsplice 9%nat (quicklook 9%nat sample_body) = (true, sample_body).
Proof.
  apply (quicklook_then_qlsplice 9%nat sample_body). by_decide.
Defined.

Lemma qlsplice_twice_witness :
  ∃ this',
    qlsplice 3%nat sample_body = (true, this')
    ∧ (∀ h, h ∈ _ql this' ↔ h ∈ _ql sample_body ∧ h ≠ 3%nat)
    ∧ S (length (_ql this')) = length (_ql sample_body)
    ∧ _n this' = _n sample_body
    ∧ _recentDocs this' = _recentDocs sample_body
    ∧ qlsplice 3%nat this' = (false, this').
Proof.
  apply (qlsplice_twice 3%nat sample_body).
  - by_decide.
  - by_decide.
Defined.

Lemma notify_then_notifySplice_witness :
  notifySplice 9%nat (notify 9%nat sample_body)
  = (sample_body, MoveUp <$> _n sample_body).
Proof.
  apply (notify_then_notifySplice 9%nat sample_body). by_decide.
Defined.

Lemma collections_stay_duplicate_free_witness :
  NoDup (_ql (quicklook 9%nat sample_body))
  ∧ NoDup (_n (notify 9%nat sample_body))
  ∧ ∀ h : Handle,
      NoDup (_ql (qlsplice h sample_body).2)
      ∧ NoDup (_n (notifySplice h sample_body).1).
Proof.
  apply (collections_stay_duplicate_free 9%nat 9%nat sample_body);
    by_decide.
Defined.

Lemma closeQuicklook_closes_each_once_witness :
  ∃ this',
    closeQuicklook_calls ZettlrQuicklook_close 4 sample_body
    = Some (_ql sample_body, this')
    ∧ closeQuicklook ZettlrQuicklook_close 4 sample_body = Some this'
    ∧ _ql this' = [].
Proof.
  apply (closeQuicklook_closes_each_once ZettlrQuicklook_close 4 sample_body).
  - intros zql st. reflexivity.
  - simpl. lia.
Defined.

Lemma closeQuicklook_needs_the_splice_witness :
  closeQuicklook sample_close_later 100 sample_body = None.
Proof.
  apply (closeQuicklook_needs_the_splice sample_close_later 100 sample_body).
  - intros zql st. reflexivity.
  - discriminate.
Defined.

Lemma prompts_send_for_their_directory_witness :
  ∃ p chan,
    requestFileName sample_trans (Some sample_dir) = Some p
    ∧ popup_callback p None = Normal []
    ∧ popup_callback p (Some []) = Throw
    ∧ (∀ first rest,
         popup_callback p (Some (first :: rest))
         = Normal [ {| channel := chan;
                       payload := {| payload_name := value first;
                                     payload_hash := dhash sample_dir |} |} ])
    ∧ (requestFileName sample_trans (Some sample_dir) = Some p →
         chan = "file-new")
    ∧ (requestDirName sample_trans (Some sample_dir) = Some p →
         chan = "dir-new")
    ∧ (requestVirtualDirName sample_trans (Some sample_dir) = Some p →
         chan = "dir-new-vd")
    ∧ (requestNewDirName sample_trans (Some sample_dir) = Normal p →
         chan = "dir-rename").
Proof.
  eexists.
  destruct (prompts_send_for_their_directory sample_trans sample_dir _
              (or_introl eq_refl)) as (chan & H).
  exists chan. split; [reflexivity|exact H].
Defined.

Lemma setTarget_shows_words_for_count_0_witness :
  ∃ p,
    setTarget sample_findObject nat sample_parseInt sample_ToString 42
    = Some p
    ∧ mode (target_cnt _ p) ≠ ""
    ∧ (count (target_cnt _ p) = 0 → mode (target_cnt _ p) = "words")
    ∧ ∀ file t,
        sample_findObject 42 = Some file → target file = Some t →
        (target_count t = 0 →
           target_cnt _ p = {| mode := "words"; count := 0 |})
        ∧ (target_mode t ≠ "" → count (target_cnt _ p) = target_count t).
Proof.
  eexists. split; [reflexivity|].
  apply (setTarget_shows_words_for_count_0 sample_findObject nat
           sample_parseInt sample_ToString 42).
  reflexivity.
Defined.

Lemma setTarget_sends_second_field_as_mode_witness :
  ∃ p,
    setTarget sample_findObject nat sample_parseInt sample_ToString 42
    = Some p
    ∧ target_callback _ p None = Normal []
    ∧ (∀ fields, (length fields < 2)%nat →
         target_callback _ p (Some fields) = Throw)
    ∧ ∀ first second rest,
        target_callback _ p (Some (first :: second :: rest))
        = Normal [ {| target_channel := "set-target";
                      target_payload :=
                        {| set_hash := sample_parseInt (sample_ToString 42);
                           set_mode := value second;
                           set_count := sample_parseInt (value first) |} |} ].
Proof.
  eexists. split; [reflexivity|].
  apply (setTarget_sends_second_field_as_mode sample_findObject nat
           sample_parseInt sample_ToString 42).
  reflexivity.
Defined.


Lemma header_formatting_marks_nothing_else_witness :
  header_formatting_mousemove true "icon"
  = [ RemoveClass ".formatting span" "active";
      SetProp ".formatting #header-formatting" "class" "icon" ]
  ∧ ∀ other, header_formatting_mousemove false other
             = [ RemoveClass ".formatting span" "active";
                 SetProp ".formatting #header-formatting" "class"
                   "markdownHeading1" ].
Proof.
  apply (header_formatting_marks_nothing_else true "icon").
  intros level Hlevel.
  do 7 (destruct level as [|level]; [first [lia | discriminate]|]). lia.
Defined.
